(** * AnimatedPhotoView: a shallow embedding of src/src/AnimatedPhotoView.tsx

    The development follows the TypeScript file top to bottom:

    - JavaScript numbers, the DOM the code queries, and the browser window;
    - the animation targets (lines 5-52) and the image source resolver
      (lines 63-86);
    - the React state of the component, the state setters and timers its
      handlers issue, and the handlers [openView] / [closeView] as the
      closures one render creates (lines 128-197);
    - the styles one render derives from its state (lines 199-276);
    - the controller (lines 88-110) and the running page: committed state,
      pending timers, the handlers registered in the controller.

    Numbers are exact rationals ([Qc], canonical fractions, so that equal
    numbers are equal terms).  Rounding, NaN and the infinities of IEEE
    doubles are outside that model; the one quotient of the component whose
    divisor can be zero is [bodyHeight / bodyWidth], and the statements
    about its value assume a viewport of positive width.  What the layout
    arithmetic of lines 232-234 and 260-261 evaluates to as JavaScript
    evaluates it, in binary64, is given beside it in [Double], on the
    kernel's primitive floats; that is where a viewport of width zero is
    treated. *)

From Stdlib Require Import QArith Qcanon Bool List String Arith Lia.
From Stdlib Require Import Floats.
Import ListNotations.
Open Scope Qc_scope.

(** ** Numbers *)

Definition number := Qc.

(** An integer literal of the source. *)
Definition lit (z : Z) : number := Q2Qc (inject_Z z).

(** [x < y] on numbers. *)
Definition jslt (x y : number) : bool :=
  match x ?= y with Lt => true | _ => false end.

(** A number is falsy exactly when it is zero. *)
Definition truthy (x : number) : bool :=
  match x ?= 0 with Eq => false | _ => true end.

(** [x || d] on numbers. *)
Definition jsor (x d : number) : number := if truthy x then x else d.

(** ** The DOM and the window

    An element is a node identity; what the browser answers when the code
    queries a node is the current [Dom].  The source reads, of an element,
    [getBoundingClientRect()], [offsetWidth], [offsetHeight], and of an
    image element also [x], [y], [width], [height], [naturalWidth],
    [naturalHeight] and [src]. *)

Definition HTMLElement := nat.
Definition HTMLImageElement := HTMLElement.

Record DOMRect := mkDOMRect {
  rect_x : number;
  rect_y : number;
  rect_width : number;
  rect_height : number
}.

Record ElementState := mkElementState {
  getBoundingClientRect : DOMRect;
  offsetWidth : number;
  offsetHeight : number;
  img_x : number;
  img_y : number;
  img_width : number;
  img_height : number;
  naturalWidth : number;
  naturalHeight : number;
  src : string
}.

Definition Dom := HTMLElement -> ElementState.

Record Window := mkWindow {
  innerWidth : number;
  innerHeight : number
}.

(** ** Animation targets (lines 5-52) *)

(** [interface AnimationTarget]: four numbers, read through getters that may
    consult the DOM. *)
Class AnimationTarget (T : Type) := {
  x : Dom -> T -> number;
  y : Dom -> T -> number;
  width : Dom -> T -> number;
  height : Dom -> T -> number
}.

Module HTMLElementAnimationTarget.

Record t := new { target : HTMLElement }.

Definition elementBounds (d : Dom) (this : t) : DOMRect :=
  getBoundingClientRect (d (target this)).

#[global] Instance getters : AnimationTarget t := {
  x d this := rect_x (elementBounds d this);
  y d this := rect_y (elementBounds d this);
  width d this := offsetWidth (d (target this));
  height d this := offsetHeight (d (target this))
}.

End HTMLElementAnimationTarget.

Module CustomAnimationTarget.

Record t := new { x : number; y : number; width : number; height : number }.

#[global] Instance getters : AnimationTarget t := {
  x _ this := x this;
  y _ this := y this;
  width _ this := width this;
  height _ this := height this
}.

End CustomAnimationTarget.

(** The objects that reach the component as [animationTarget]: instances of
    the two classes, or an image element itself (line 106 passes
    [_source.image] unwrapped; an image element has [x], [y], [width] and
    [height] properties of its own). *)
Inductive AnimationTargetRef :=
| ElementTarget (t : HTMLElementAnimationTarget.t)
| CustomTarget (t : CustomAnimationTarget.t)
| ImageTarget (img : HTMLImageElement).

#[global] Instance AnimationTargetRef_getters : AnimationTarget AnimationTargetRef := {
  x d r := match r with
           | ElementTarget t => x d t
           | CustomTarget t => x d t
           | ImageTarget img => img_x (d img)
           end;
  y d r := match r with
           | ElementTarget t => y d t
           | CustomTarget t => y d t
           | ImageTarget img => img_y (d img)
           end;
  width d r := match r with
               | ElementTarget t => width d t
               | CustomTarget t => width d t
               | ImageTarget img => img_width (d img)
               end;
  height d r := match r with
                | ElementTarget t => height d t
                | CustomTarget t => height d t
                | ImageTarget img => img_height (d img)
                end
}.

(** ** Image sources (lines 63-86) *)

Inductive ImageSource :=
| SourceString (url : string)
| SourceImage (img : HTMLImageElement).

Module ImageSourceResolver.

Record t := new { source : ImageSource }.

Definition isString (this : t) : bool :=
  match source this with SourceString _ => true | SourceImage _ => false end.

Definition isElement (this : t) : bool := negb (isString this).

(** [this.source as HTMLImageElement]: the element when the source is one. *)
Definition image (this : t) : option HTMLImageElement :=
  match source this with SourceString _ => None | SourceImage img => Some img end.

Definition url (d : Dom) (this : t) : string :=
  match source this with
  | SourceString s => s
  | SourceImage img => src (d img)
  end.

End ImageSourceResolver.

(** ** The component's state (lines 113-172)

    One field per [useState] cell of [AnimatedPhotoView] and of the hooks
    [useWindowSize] and [useUpdate] it calls. *)

Record ViewerState := mkViewerState {
  visible : bool;
  opening : bool;
  closing : bool;
  animationTarget : option AnimationTargetRef;
  bodyWidth : number;
  bodyHeight : number;
  source : option ImageSourceResolver.t;
  updating : bool
}.

(** The state setters the handlers call. *)
Inductive SetState :=
| setVisible (b : bool)
| setOpening (b : bool)
| setClosing (b : bool)
| setAnimationTarget (t : AnimationTargetRef)
| setSource (r : ImageSourceResolver.t)
| setUpdating (b : bool)
| setBodyWidth (n : number)
| setBodyHeight (n : number).

Definition apply_set (a : SetState) (s : ViewerState) : ViewerState :=
  match a with
  | setVisible b =>
      mkViewerState b (opening s) (closing s) (animationTarget s)
        (bodyWidth s) (bodyHeight s) (source s) (updating s)
  | setOpening b =>
      mkViewerState (visible s) b (closing s) (animationTarget s)
        (bodyWidth s) (bodyHeight s) (source s) (updating s)
  | setClosing b =>
      mkViewerState (visible s) (opening s) b (animationTarget s)
        (bodyWidth s) (bodyHeight s) (source s) (updating s)
  | setAnimationTarget t =>
      mkViewerState (visible s) (opening s) (closing s) (Some t)
        (bodyWidth s) (bodyHeight s) (source s) (updating s)
  | setSource r =>
      mkViewerState (visible s) (opening s) (closing s) (animationTarget s)
        (bodyWidth s) (bodyHeight s) (Some r) (updating s)
  | setUpdating b =>
      mkViewerState (visible s) (opening s) (closing s) (animationTarget s)
        (bodyWidth s) (bodyHeight s) (source s) b
  | setBodyWidth n =>
      mkViewerState (visible s) (opening s) (closing s) (animationTarget s)
        n (bodyHeight s) (source s) (updating s)
  | setBodyHeight n =>
      mkViewerState (visible s) (opening s) (closing s) (animationTarget s)
        (bodyWidth s) n (source s) (updating s)
  end.

(** What a timer callback of this file does: a sequence of setter calls. *)
Definition Callback := list SetState.

Definition run_callback (cb : Callback) (s : ViewerState) : ViewerState :=
  fold_left (fun s a => apply_set a s) cb s.

(** What a handler does when called: setter calls and [setTimeout] calls, in
    program order.  Delays are in milliseconds. *)
Inductive Effect :=
| Call (a : SetState)
| setTimeout (cb : Callback) (delay : nat).

Definition OpenView := ImageSourceResolver.t -> AnimationTargetRef -> list Effect.
Definition closeView_t := option AnimationTargetRef -> list Effect.

Record PhotoViewControls := mkControls {
  ctl_openView : OpenView;
  ctl_closeView : closeView_t
}.

(** [useUpdate] (lines 128-141): [update(cb)] raises [updating] and lowers it
    again from a zero-delay timer, which then runs [cb] if one was given. *)
Definition update (cb : Callback) : list Effect :=
  [Call (setUpdating true); setTimeout (setUpdating false :: cb) 0].

(** ** Styles *)

Inductive CssSize :=
| SizeNumber (n : number)
| SizeFull.                    (* the string '100%' *)

Inductive CssPadding :=
| PaddingPx (n : number)       (* the string n + 'px' *)
| PaddingNumber (n : number).

Inductive CssDisplay := DisplayBlock | DisplayFlex | DisplayNone.

Module BgStyle.
(** Lines 217-229; the fields that never change (position, size, colour and
    the opacity transition) are left out. *)
Record t := mk { opacity : number; display : CssDisplay }.
End BgStyle.

Module Style.
(** Lines 238-272; [transition] is the duration of [`all ${_duration}ms`], or
    nothing for [null]; [alignItems] is set (to 'center') or not. *)
Record t := mk {
  width : CssSize;
  height : CssSize;
  left : number;
  top : number;
  display : CssDisplay;
  transition : option nat;
  alignItems : bool;
  paddingLeft : CssPadding;
  paddingRight : CssPadding
}.
End Style.

Module ImageStyle.
(** Lines 274-276: which of width and height is set to '100%'. *)
Record t := mk { width : bool; height : bool }.
End ImageStyle.

(** ** One render of [AnimatedPhotoView] (lines 151-299)

    Everything below is what the body of the component computes in the render
    that sees the committed state [s], the DOM [dom] and the ref
    [image_current] of its [<img>].  The handlers are closures of that
    render: the [animating] they test is the constant of line 161 of the
    render that created them. *)

Module AnimatedPhotoView.

Section Render.

Variable s : ViewerState.
Variable dom : Dom.
Variable image_current : option HTMLImageElement.

Definition animating : bool := closing s || opening s.

Definition duration : nat := 2000.

(** Lines 179-187. *)
Definition openView (source : ImageSourceResolver.t)
  (animationTarget : AnimationTargetRef) : list Effect :=
  if animating then []
  else [Call (setVisible true);
        Call (setSource source);
        Call (setOpening true);
        Call (setAnimationTarget animationTarget)]
       ++ update []
       ++ [setTimeout [setOpening false] duration].

(** Lines 189-197.  The function is declared without parameters, its type
    (line 55) allows an [animateTo] argument; whatever a caller passes is
    dropped. *)
Definition closeView (animateTo : option AnimationTargetRef) : list Effect :=
  if animating then []
  else update []
       ++ [Call (setClosing true);
           setTimeout [setClosing false; setVisible false] duration].

(** Line 176: the object handed to [controller.setControls]. *)
Definition controls : PhotoViewControls := mkControls openView closeView.

(** [animationTarget?.f || 0] *)
Definition target_or_0 (f : Dom -> AnimationTargetRef -> number) : number :=
  match animationTarget s with
  | Some t => jsor (f dom t) 0
  | None => 0
  end.

(** Lines 199-210. *)
Definition _width : number :=
  if updating s || closing s then target_or_0 width else bodyWidth s.

Definition _height : number :=
  if updating s || closing s then target_or_0 height else bodyHeight s.

Definition _left : number :=
  if updating s || closing s then target_or_0 x else 0.

Definition _top : number :=
  if updating s || closing s then target_or_0 y else 0.

Definition _duration : nat := duration.

(** Lines 217-229. *)
Definition bgStyle : BgStyle.t :=
  BgStyle.mk
    (if negb (visible s && negb (updating s)) || closing s then 0 else 1)
    (if visible s then DisplayBlock else DisplayNone).

(** Line 232. *)
Definition imageAspectRatio : number :=
  match image_current with
  | Some img =>
      jsor (naturalHeight (dom img)) 1 / jsor (naturalWidth (dom img)) 1
  | None => 1
  end.

(** Line 234, in exact arithmetic; it stands for the code's quotient when
    [bodyWidth s] is not zero ([Double.screenAspectRatio] has the other
    case). *)
Definition screenAspectRatio : number := bodyHeight s / bodyWidth s.

(** Lines 249-257. *)
Definition horizontalMargins : bool :=
  if jslt imageAspectRatio screenAspectRatio then false else true.

Definition verticalMargins : bool :=
  if jslt imageAspectRatio screenAspectRatio then true else false.

(** Lines 260-261, in exact arithmetic ([Double.left] has the value in
    binary64). *)
Definition left : number :=
  let left := (bodyWidth s - (screenAspectRatio / imageAspectRatio) * bodyWidth s)
              / lit 2 in
  if jslt left 0 then 0 else left.

(** Lines 238-272. *)
Definition style : Style.t :=
  Style.mk
    (if animating then SizeNumber _width else SizeFull)
    (if animating then SizeNumber _height else SizeFull)
    _left
    _top
    (if visible s then DisplayFlex else DisplayNone)
    (if animating then Some _duration else None)
    (if jslt imageAspectRatio screenAspectRatio then true else false)
    (if updating s || closing s then PaddingNumber 0 else PaddingPx left)
    (if updating s || closing s then PaddingNumber 0 else PaddingPx left).

(** Lines 274-276. *)
Definition imageStyle : ImageStyle.t :=
  ImageStyle.mk verticalMargins horizontalMargins.

End Render.

End AnimatedPhotoView.

(** ** The layout arithmetic in binary64

    Lines 232-234 and 260-261 as JavaScript evaluates them: every number is
    an IEEE 754 double, a quotient by zero is an infinity or NaN, and a
    comparison with NaN is false.  The inputs are the numbers the render
    reads: the size of the viewport and, when [image.current] is set, the
    natural width and height of the image. *)

Module Double.

(** [x || d] on doubles: 0, -0 and NaN are falsy. *)
Definition jsor (x d : float) : float :=
  if PrimFloat.is_nan x || PrimFloat.eqb x 0 then d else x.

(** Line 232; [natural] is [(naturalWidth, naturalHeight)] of
    [image.current], or nothing while the ref is not set. *)
Definition imageAspectRatio (natural : option (float * float)) : float :=
  match natural with
  | Some (naturalWidth, naturalHeight) =>
      PrimFloat.div (jsor naturalHeight 1) (jsor naturalWidth 1)
  | None => 1%float
  end.

(** Line 234. *)
Definition screenAspectRatio (bodyWidth bodyHeight : float) : float :=
  PrimFloat.div bodyHeight bodyWidth.

(** Lines 249-257. *)
Definition verticalMargins (bodyWidth bodyHeight : float)
  (natural : option (float * float)) : bool :=
  PrimFloat.ltb (imageAspectRatio natural)
    (screenAspectRatio bodyWidth bodyHeight).

Definition horizontalMargins (bodyWidth bodyHeight : float)
  (natural : option (float * float)) : bool :=
  negb (verticalMargins bodyWidth bodyHeight natural).

(** Lines 260-261. *)
Definition left (bodyWidth bodyHeight : float)
  (natural : option (float * float)) : float :=
  let left :=
    PrimFloat.div
      (PrimFloat.sub bodyWidth
         (PrimFloat.mul
            (PrimFloat.div (screenAspectRatio bodyWidth bodyHeight)
               (imageAspectRatio natural))
            bodyWidth))
      2 in
  if PrimFloat.ltb left 0 then 0%float else left.

End Double.

(** ** The controller (lines 88-110)

    The record is a controller on which [setControls] has run: its two fields
    hold the handlers it was given. *)

Module AnimatedPhotoViewController.

Record t := mk { _openView : OpenView; _closeView : closeView_t }.

Definition setControls (photoViewControls : PhotoViewControls) : t :=
  mk (ctl_openView photoViewControls) (ctl_closeView photoViewControls).

(** Lines 105-107: the two arguments [openView] passes on. *)
Definition openView_arguments (window : Window) (source : ImageSource)
  (animationTarget : option AnimationTargetRef)
  : ImageSourceResolver.t * AnimationTargetRef :=
  let _source := ImageSourceResolver.new source in
  let animationTarget :=
    match animationTarget with
    | None =>
        if ImageSourceResolver.isElement _source
        then option_map ImageTarget (ImageSourceResolver.image _source)
        else None
    | Some t => Some t
    end in
  let animationTarget :=
    match animationTarget with
    | Some t => t
    | None =>
        CustomTarget
          (CustomAnimationTarget.new (innerWidth window / lit 2)
             (innerHeight window / lit 2) (lit 10) (lit 10))
    end in
  (_source, animationTarget).

(** Lines 104-109. *)
Definition openView (this : t) (window : Window) (source : ImageSource)
  (animationTarget : option AnimationTargetRef) : list Effect :=
  let '(_source, animationTarget) :=
    openView_arguments window source animationTarget in
  _openView this _source animationTarget.

(** Lines 100-102. *)
Definition openViewFromElement (this : t) (window : Window)
  (source : ImageSource) (animationTargetElement : option HTMLElement)
  : list Effect :=
  openView this window source
    (option_map (fun e => ElementTarget (HTMLElementAnimationTarget.new e))
       animationTargetElement).

End AnimatedPhotoViewController.

(** ** The running page

    The committed state of the mounted component, the window, the controller
    the host passed in, a clock in milliseconds and the timers that are
    pending, oldest first.  After each event React renders the component
    again with the committed state, so the handlers attached to the elements
    of the page are those of [state]; the handlers the controller holds are
    the ones [setControls] received. *)

Record Timer := mkTimer { due : nat; callback : Callback }.

Record World := mkWorld {
  state : ViewerState;
  window : Window;
  controller : AnimatedPhotoViewController.t;
  clock : nat;
  timers : list Timer
}.

Definition run_effect (w : World) (e : Effect) : World :=
  match e with
  | Call a =>
      mkWorld (apply_set a (state w)) (window w) (controller w) (clock w)
        (timers w)
  | setTimeout cb delay =>
      mkWorld (state w) (window w) (controller w) (clock w)
        (timers w ++ [mkTimer (clock w + delay) cb])
  end.

Definition run_effects (es : list Effect) (w : World) : World :=
  fold_left run_effect es w.

(** The pending timer that runs next, and the timers left: the one due
    first, the older one among timers due at the same time. *)
Fixpoint next_timer (ts : list Timer) : option (Timer * list Timer) :=
  match ts with
  | [] => None
  | t :: rest =>
      match next_timer rest with
      | Some (t', rest') =>
          if due t' <? due t then Some (t', t :: rest') else Some (t, rest)
      | None => Some (t, rest)
      end
  end.

(** The state of the first render (lines 114-115, 130, 153-167). *)
Definition initial_state (window : Window) : ViewerState :=
  mkViewerState false false false None
    (jsor (innerWidth window) (lit 1000))
    (jsor (innerHeight window) (lit 1000))
    None false.

(** Mounting: the first render, then the effect of lines 175-177, which
    hands the handlers of that render to the controller.  The effect depends
    on [controller] alone, and the host keeps one controller (example/App.tsx
    creates it once), so the effect does not run again. *)
Definition mount (window : Window) : World :=
  let s := initial_state window in
  mkWorld s window
    (AnimatedPhotoViewController.setControls (AnimatedPhotoView.controls s))
    0 [].

Inductive Event :=
| ControllerOpenView (source : ImageSource)
    (animationTarget : option AnimationTargetRef)
| ControllerOpenViewFromElement (source : ImageSource)
    (animationTargetElement : option HTMLElement)
| ControllerCloseView (animateTo : option AnimationTargetRef)
| ImageClick
| Resize (window : Window)
| Elapse (ms : nat)
| TimerFires.

Definition step (w : World) (e : Event) : World :=
  match e with
  | ControllerOpenView source animationTarget =>
      (* controller.openView(source, animationTarget) *)
      run_effects
        (AnimatedPhotoViewController.openView (controller w) (window w)
           source animationTarget) w
  | ControllerOpenViewFromElement source element =>
      (* controller.openViewFromElement(source, element) *)
      run_effects
        (AnimatedPhotoViewController.openViewFromElement (controller w)
           (window w) source element) w
  | ControllerCloseView animateTo =>
      (* controller._closeView(animateTo) *)
      run_effects
        (AnimatedPhotoViewController._closeView (controller w) animateTo) w
  | ImageClick =>
      (* line 289: onClick={closeView} of the current render; the click
         event it receives is dropped *)
      run_effects (AnimatedPhotoView.closeView (state w) None) w
  | Resize window =>
      (* lines 118-121: the resize listener *)
      mkWorld
        (run_callback [setBodyWidth (innerWidth window);
                       setBodyHeight (innerHeight window)] (state w))
        window (controller w) (clock w) (timers w)
  | Elapse ms =>
      mkWorld (state w) (window w) (controller w) (clock w + ms) (timers w)
  | TimerFires =>
      (* the next pending timer runs, once it is due *)
      match next_timer (timers w) with
      | Some (t, rest) =>
          if due t <=? clock w
          then mkWorld (run_callback (callback t) (state w)) (window w)
                 (controller w) (clock w) rest
          else w
      | None => w
      end
  end.

Definition run (w : World) (es : list Event) : World := fold_left step es w.

(** Running every timer that is due, in order: a firing removes one pending
    timer and adds none, so as many firings as there are pending timers
    leave no due timer behind. *)
Fixpoint fire_due (n : nat) (w : World) : World :=
  match n with
  | O => w
  | S n => fire_due n (step w TimerFires)
  end.

Definition settle (w : World) : World := fire_due (List.length (timers w)) w.

(** [ms] milliseconds later, the timers that became due having run. *)
Definition wait (ms : nat) (w : World) : World := settle (step w (Elapse ms)).

(** ** Concrete pages used in the examples below *)

(** A 1000 x 1000 window. *)
Definition window_1000 : Window := mkWindow (lit 1000) (lit 1000).

(** A static rectangle at (100, 100) of size 50 x 50, and a second one. *)
Definition thumbnail : AnimationTargetRef :=
  CustomTarget (CustomAnimationTarget.new (lit 100) (lit 100) (lit 50) (lit 50)).

Definition other_thumbnail : AnimationTargetRef :=
  CustomTarget (CustomAnimationTarget.new (lit 1) (lit 2) (lit 3) (lit 4)).

(** A DOM in which every image has the natural size [iw] x [ih]. *)
Definition dom_natural (iw ih : number) : Dom :=
  fun _ => mkElementState (mkDOMRect 0 0 0 0) 0 0 0 0 0 0 iw ih "".

(** The [<img>] of the component. *)
Definition the_img : HTMLImageElement := 0%nat.

(** A committed state with [updating] set and neither [opening] nor
    [closing]. *)
Definition updating_only : ViewerState :=
  mkViewerState true false false (Some thumbnail) (lit 1000) (lit 1000) None
    true.

(** A 500 x 1000 viewport showing the image, nothing in progress. *)
Definition steady_500_1000 : ViewerState :=
  mkViewerState true false false (Some thumbnail) (lit 500) (lit 1000) None
    false.

(** A field of the animation-target rectangle of a state, 0 when the state
    has no target. *)
Definition target_field (s : ViewerState) (dom : Dom)
  (f : Dom -> AnimationTargetRef -> number) : number :=
  match animationTarget s with
  | Some t => f dom t
  | None => 0
  end.

(** The rectangle the controller falls back to (line 107). *)
Definition fallback_target (window : Window) : AnimationTargetRef :=
  CustomTarget
    (CustomAnimationTarget.new (innerWidth window / lit 2)
       (innerHeight window / lit 2) (lit 10) (lit 10)).

(** The page of a 1000 x 1000 window on which the host opens "a.jpg" from
    the thumbnail; 500 ms later, the pulse over, the opening is in progress. *)
Definition open_a : Event :=
  ControllerOpenView (SourceString "a.jpg") (Some thumbnail).

Definition open_b : Event :=
  ControllerOpenView (SourceString "b.jpg") (Some other_thumbnail).

Definition while_opening : World :=
  run (mount window_1000) [open_a; TimerFires; Elapse 500].

(** The same page once the opening is over: the view is open and nothing is
    pending. *)
Definition fully_open : World :=
  run (mount window_1000) [open_a; TimerFires; Elapse 2000; TimerFires].

(** From there the user clicks the image, the pulse of the close runs, and
    the host opens "b.jpg" while the close is in progress. *)
Definition open_during_close : list Event :=
  [open_a; TimerFires; Elapse 2000; TimerFires; ImageClick; TimerFires;
   Elapse 500; open_b].

(** Time passing and timers running, and nothing else. *)
Definition passive (e : Event) : bool :=
  match e with
  | Elapse _ | TimerFires => true
  | _ => false
  end.

(** A setter call that raises neither [opening] nor [closing]. *)
Definition lowers (a : SetState) : bool :=
  match a with
  | setOpening b | setClosing b => negb b
  | _ => true
  end.

(** [opening] and [closing] are not both set, and no pending timer raises
    either. *)
Definition exclusive (w : World) : Prop :=
  opening (state w) && closing (state w) = false /\
  Forall (fun t => forallb lowers (callback t) = true) (timers w).

(** The page as it would be had the controller been handed the handlers of
    the current render. *)
Definition rebound (w : World) : World :=
  mkWorld (state w) (window w)
    (AnimatedPhotoViewController.setControls
       (AnimatedPhotoView.controls (state w)))
    (clock w) (timers w).

Definition run_rebound (w : World) (es : list Event) : World :=
  fold_left (fun w e => step (rebound w) e) es w.

(** The two timers a close started at time [now] leaves pending. *)
Definition pulse_timer (now : nat) : Timer :=
  mkTimer (now + 0) [setUpdating false].

Definition finish_timer (now : nat) : Timer :=
  mkTimer (now + AnimatedPhotoView.duration) [setClosing false; setVisible false].

(** Where the page can be once a close has started at time [now] in state
    [s]: before the pulse ended, between the pulse and the end of the close,
    or after it. *)
Definition close_phase (s : ViewerState) (now : nat) (w : World) : Prop :=
  (timers w = [pulse_timer now; finish_timer now] /\
   state w = apply_set (setClosing true) (apply_set (setUpdating true) s)) \/
  (timers w = [finish_timer now] /\
   state w = apply_set (setClosing true) s) \/
  (timers w = [] /\
   state w = apply_set (setVisible false) s /\
   (now + AnimatedPhotoView.duration <= clock w)%nat).

(** A host that calls the controller only while no transition is in
    progress; clicks, resizes and timers come as they may. *)
Definition polite (w : World) (e : Event) : bool :=
  match e with
  | ControllerOpenView _ _
  | ControllerOpenViewFromElement _ _
  | ControllerCloseView _ => negb (AnimatedPhotoView.animating (state w))
  | _ => true
  end.

Fixpoint polite_run (w : World) (es : list Event) : bool :=
  match es with
  | [] => true
  | e :: es => polite w e && polite_run (step w e) es
  end.

(** ** What the handlers leave pending *)

(** The timer that ends an opening started at time [now]. *)
Definition opening_timer (now : nat) : Timer :=
  mkTimer (now + AnimatedPhotoView.duration) [setOpening false].

(** A timer one of the handlers scheduled: the end of a pulse, of an
    opening or of a closing. *)
Definition handler_timer (t : Timer) : Prop :=
  callback t = [setUpdating false] \/
  callback t = [setOpening false] \/
  callback t = [setClosing false; setVisible false].

(** Every pending timer is a handler's and is due within [duration]; a flag
    that is raised has a pending timer that lowers it, the one of [updating]
    being due already. *)
Definition pending_ok (w : World) : Prop :=
  Forall (fun t => handler_timer t /\
                   (due t <= clock w + AnimatedPhotoView.duration)%nat)
    (timers w) /\
  (updating (state w) = true ->
   Exists (fun t => callback t = [setUpdating false] /\
                    (due t <= clock w)%nat) (timers w)) /\
  (opening (state w) = true ->
   Exists (fun t => callback t = [setOpening false]) (timers w)) /\
  (closing (state w) = true ->
   Exists (fun t => callback t = [setClosing false; setVisible false])
     (timers w)).

(** Where the page can be once an opening of source [r] from target [t] has
    started at time [now] in state [s], while nothing else happens. *)
Definition opening_started (s : ViewerState) (r : ImageSourceResolver.t)
  (t : AnimationTargetRef) : ViewerState :=
  apply_set (setUpdating true)
    (apply_set (setAnimationTarget t)
       (apply_set (setOpening true)
          (apply_set (setSource r) (apply_set (setVisible true) s)))).

Definition open_phase (s : ViewerState) (r : ImageSourceResolver.t)
  (t : AnimationTargetRef) (now : nat) (w : World) : Prop :=
  (timers w = [pulse_timer now; opening_timer now] /\
   state w = opening_started s r t) \/
  (timers w = [opening_timer now] /\
   state w = apply_set (setUpdating false) (opening_started s r t)) \/
  (timers w = [] /\
   state w = apply_set (setOpening false)
               (apply_set (setUpdating false) (opening_started s r t)) /\
   (now + AnimatedPhotoView.duration <= clock w)%nat).

(** The window of the last resize among [es], if any. *)
Definition last_resize (es : list Event) : option Window :=
  fold_left (fun acc e => match e with Resize win => Some win | _ => acc end)
    es None.

(** The window and the size the component holds agree with the last
    resize [acc], or with the window the page was mounted in. *)
Definition tracks (window0 : Window) (acc : option Window) (w : World) : Prop :=
  match acc with
  | Some win =>
      window w = win /\
      bodyWidth (state w) = innerWidth win /\
      bodyHeight (state w) = innerHeight win
  | None =>
      window w = window0 /\
      bodyWidth (state w) = jsor (innerWidth window0) (lit 1000) /\
      bodyHeight (state w) = jsor (innerHeight window0) (lit 1000)
  end.

(** A visible view has a source and a target, and a state has both or
    neither. *)
Definition furnished (s : ViewerState) : Prop :=
  (visible s = true -> source s <> None /\ animationTarget s <> None) /\
  (source s = None <-> animationTarget s = None).

(** * Properties *)

(** ** Numbers *)

Lemma jslt_true_iff (a b : number) : jslt a b = true <-> a < b.
Proof.
  unfold jslt. rewrite Qclt_alt.
  destruct (a ?= b); split; intro H; try reflexivity; discriminate H.
Qed.

Lemma jslt_false_iff (a b : number) : jslt a b = false <-> ~ a < b.
Proof.
  rewrite <- jslt_true_iff. destruct (jslt a b); split; intro H.
  - discriminate H.
  - exfalso. apply H. reflexivity.
  - intro H'. discriminate H'.
  - reflexivity.
Qed.

Lemma truthy_false_iff (a : number) : truthy a = false <-> a = 0.
Proof.
  unfold truthy. rewrite Qceq_alt.
  destruct (a ?= 0); split; intro H; try reflexivity; discriminate H.
Qed.

Lemma jsor_nonzero (a d : number) : a <> 0 -> jsor a d = a.
Proof.
  intro Ha. unfold jsor. destruct (truthy a) eqn:E; [reflexivity|].
  apply truthy_false_iff in E. contradiction.
Qed.

Lemma jsor_zero (d : number) : jsor 0 d = d.
Proof. reflexivity. Qed.

Lemma jsor_0_r (a : number) : jsor a 0 = a.
Proof.
  unfold jsor. destruct (truthy a) eqn:E; [reflexivity|].
  apply truthy_false_iff in E. symmetry. exact E.
Qed.

Lemma jsor_1_nonzero (a : number) : jsor a 1 <> 0.
Proof.
  unfold jsor. destruct (truthy a) eqn:E.
  - intro H. apply truthy_false_iff in H. rewrite H in E. discriminate E.
  - discriminate.
Qed.

Lemma positive_nonzero (a : number) : 0 < a -> a <> 0.
Proof.
  intros H E. rewrite E in H.
  exact (Qcle_not_lt 0 0 (Qcle_refl 0) H).
Qed.

(** ** The live-bound rectangle *)

(** C8. An [HTMLElementAnimationTarget] built on an element [E] holds the
    element and no number: whatever DOM is current when a field is read,
    [x] and [y] are the position of [E]'s bounding client rectangle in that
    DOM and [width] and [height] are [E]'s offset box in that DOM, also when
    the object is read as the component's [animationTarget]; so a read made
    after the page changed returns the new values, and the size read from
    the offset box can differ from the size of the bounding rectangle. *)
Theorem HTMLElementAnimationTarget_live :
  forall E : HTMLElement,
    let r := HTMLElementAnimationTarget.new E in
    (forall d : Dom,
        x d r = rect_x (getBoundingClientRect (d E)) /\
        y d r = rect_y (getBoundingClientRect (d E)) /\
        width d r = offsetWidth (d E) /\
        height d r = offsetHeight (d E) /\
        x d (ElementTarget r) = rect_x (getBoundingClientRect (d E)) /\
        y d (ElementTarget r) = rect_y (getBoundingClientRect (d E)) /\
        width d (ElementTarget r) = offsetWidth (d E) /\
        height d (ElementTarget r) = offsetHeight (d E)) /\
    (exists d d' : Dom, x d r <> x d' r /\ width d r <> width d' r) /\
    (exists d : Dom,
        width d r <> rect_width (HTMLElementAnimationTarget.elementBounds d r) /\
        height d r <> rect_height (HTMLElementAnimationTarget.elementBounds d r)).
Proof.
  intros E r. split; [|split].
  - intro d. repeat split.
  - exists (fun _ => mkElementState (mkDOMRect 0 0 0 0) 0 0 0 0 0 0 0 0 "").
    exists (fun _ => mkElementState (mkDOMRect 1 1 1 1) 1 1 0 0 0 0 0 0 "").
    split; simpl; discriminate.
  - exists (fun _ => mkElementState (mkDOMRect 0 0 1 1) 0 0 0 0 0 0 0 0 "").
    split; simpl; discriminate.
Qed.

(** ** The aspect-fit layout *)

Import AnimatedPhotoView.

Lemma imageAspectRatio_loaded (dom : Dom) (img : HTMLImageElement) :
  naturalWidth (dom img) <> 0 ->
  naturalHeight (dom img) <> 0 ->
  imageAspectRatio dom (Some img)
  = naturalHeight (dom img) / naturalWidth (dom img).
Proof.
  intros Hw Hh. unfold imageAspectRatio.
  rewrite !jsor_nonzero by assumption. reflexivity.
Qed.

(** C1, as the code has it. The ratio is 1 while there is no image element;
    with an element of natural size [iw] x [ih] it is [ih / iw] when both
    are nonzero and 1 when both are zero; a single zero dimension is
    replaced by 1 on its own, so the ratio is then [ih] (for [iw = 0]) or
    [1 / iw] (for [ih = 0]).  The divisor is never zero. *)
Theorem imageAspectRatio_cases :
  forall (dom : Dom) (img : HTMLImageElement),
    let iw := naturalWidth (dom img) in
    let ih := naturalHeight (dom img) in
    imageAspectRatio dom None = 1 /\
    (iw <> 0 -> ih <> 0 -> imageAspectRatio dom (Some img) = ih / iw) /\
    (iw = 0 -> ih = 0 -> imageAspectRatio dom (Some img) = 1) /\
    (iw = 0 -> ih <> 0 -> imageAspectRatio dom (Some img) = ih) /\
    (iw <> 0 -> ih = 0 -> imageAspectRatio dom (Some img) = 1 / iw) /\
    jsor iw 1 <> 0.
Proof.
  intros dom img iw ih. unfold imageAspectRatio. fold iw. fold ih.
  split; [reflexivity|]. repeat split.
  - apply imageAspectRatio_loaded.
  - intros Hw Hh. rewrite Hw, Hh, jsor_zero. apply Qc_is_canon. reflexivity.
  - intros Hw Hh. rewrite Hw, jsor_zero, jsor_nonzero by assumption.
    change (ih / 1 = ih :> Qc). field. discriminate.
  - intros Hw Hh. rewrite Hh, jsor_zero, jsor_nonzero by assumption.
    reflexivity.
  - apply jsor_1_nonzero.
Qed.

(** C1, as stated, fails: an image element whose natural width is 0 and
    whose natural height is 500 has ratio 500, not 1. *)
Lemma imageAspectRatio_zero_width :
  naturalWidth (dom_natural 0 (lit 500) the_img) = 0 /\
  imageAspectRatio (dom_natural 0 (lit 500)) (Some the_img) = lit 500 /\
  imageAspectRatio (dom_natural 0 (lit 500)) (Some the_img) <> 1.
Proof.
  assert (E : imageAspectRatio (dom_natural 0 (lit 500)) (Some the_img) = lit 500).
  { apply Qc_is_canon. reflexivity. }
  split; [reflexivity|]. split; [exact E|]. rewrite E. discriminate.
Qed.

(** C2. With a viewport of positive width and an image of positive natural
    size, the render selects vertical centring ([verticalMargins] true,
    [horizontalMargins] false, the image 100% wide) exactly when
    [ih / iw < H / W], and horizontal centring otherwise; when the two ratios
    are equal it selects horizontal centring. *)
Theorem margin_mode :
  forall (s : ViewerState) (dom : Dom) (img : HTMLImageElement),
    0 < bodyWidth s ->
    0 < naturalWidth (dom img) ->
    0 < naturalHeight (dom img) ->
    let imageRatio := naturalHeight (dom img) / naturalWidth (dom img) in
    let screenRatio := bodyHeight s / bodyWidth s in
    let vertical := verticalMargins s dom (Some img) in
    let horizontal := horizontalMargins s dom (Some img) in
    (vertical = true /\ horizontal = false <-> imageRatio < screenRatio) /\
    (vertical = false /\ horizontal = true <-> ~ imageRatio < screenRatio) /\
    (imageRatio = screenRatio -> vertical = false /\ horizontal = true) /\
    imageStyle s dom (Some img) = ImageStyle.mk vertical horizontal /\
    Style.alignItems (style s dom (Some img)) = vertical.
Proof.
  intros s dom img HW Hiw Hih imageRatio screenRatio vertical horizontal.
  assert (R : imageAspectRatio dom (Some img) = imageRatio).
  { apply imageAspectRatio_loaded; apply positive_nonzero; assumption. }
  assert (V : vertical = jslt imageRatio screenRatio).
  { unfold vertical, verticalMargins. rewrite R. unfold screenAspectRatio.
    fold screenRatio. destruct (jslt imageRatio screenRatio); reflexivity. }
  assert (Hz : horizontal = negb (jslt imageRatio screenRatio)).
  { unfold horizontal, horizontalMargins. rewrite R. unfold screenAspectRatio.
    fold screenRatio. destruct (jslt imageRatio screenRatio); reflexivity. }
  assert (B : imageRatio = screenRatio -> jslt imageRatio screenRatio = false).
  { intro E. apply jslt_false_iff. rewrite E. apply Qcle_not_lt, Qcle_refl. }
  split; [|split; [|split; [|split]]].
  - rewrite V, Hz, <- jslt_true_iff.
    destruct (jslt imageRatio screenRatio); simpl; intuition congruence.
  - rewrite V, Hz, <- jslt_false_iff.
    destruct (jslt imageRatio screenRatio); simpl; intuition congruence.
  - intro E. rewrite V, Hz, (B E). split; reflexivity.
  - reflexivity.
  - unfold vertical, verticalMargins, style. simpl.
    destruct (jslt _ _); reflexivity.
Qed.

(** A 2000 x 1000 image in a 500 x 1000 viewport (ratios 1/2 and 2) is
    centred vertically. *)
Lemma margin_mode_witness :
  let s := steady_500_1000 in
  let dom := dom_natural (lit 2000) (lit 1000) in
  0 < bodyWidth s /\
  0 < naturalWidth (dom the_img) /\
  0 < naturalHeight (dom the_img) /\
  naturalHeight (dom the_img) / naturalWidth (dom the_img)
    < bodyHeight s / bodyWidth s /\
  verticalMargins s dom (Some the_img) = true /\
  horizontalMargins s dom (Some the_img) = false.
Proof.
  intros s dom.
  split; [reflexivity|]. split; [reflexivity|]. split; [reflexivity|].
  split; [reflexivity|].
  apply (margin_mode s dom the_img); reflexivity.
Defined.

(** ** Styles as functions of the state *)

(** C4. The opacity of the background is 0 or 1; it is 1 exactly when
    [visible] holds and neither [updating] nor [closing] does; so it is 0
    unless [visible] and not [updating], and 0 whenever [closing]. *)
Theorem bgStyle_opacity :
  forall s : ViewerState,
    let o := BgStyle.opacity (bgStyle s) in
    (o = 0 \/ o = 1) /\
    (o = 1 <-> visible s = true /\ updating s = false /\ closing s = false) /\
    (visible s && negb (updating s) = false -> o = 0) /\
    (closing s = true -> o = 0).
Proof.
  intros [v op cl t bw bh sr u] o. unfold o, bgStyle. simpl.
  destruct v, u, cl; simpl; repeat split; intros;
    try (left; reflexivity); try (right; reflexivity);
    try reflexivity; try discriminate;
    match goal with
    | H : _ /\ _ /\ _ |- _ => destruct H as (? & ? & ?); discriminate
    end.
Qed.

Lemma target_or_0_field (s : ViewerState) (dom : Dom)
  (f : Dom -> AnimationTargetRef -> number) :
  target_or_0 s dom f = target_field s dom f.
Proof.
  unfold target_or_0, target_field.
  destruct (animationTarget s); [apply jsor_0_r | reflexivity].
Qed.

(** C5, as the code has it. When [updating] or [closing] is set, both
    paddings are the number 0 and [left] and [top] are the target's [x] and
    [y] (0 without a target); [width] and [height] are the target's (0
    without a target) when moreover [opening] or [closing] is set, which
    [closing] alone ensures, and are '100%' when [updating] is set with
    neither.  When neither [updating] nor [closing] is set, the position is
    (0, 0) and both paddings are the computed aspect-fit padding. *)
Theorem container_style_pinned :
  forall (s : ViewerState) (dom : Dom) (img : option HTMLImageElement),
    let st := style s dom img in
    (updating s || closing s = true ->
     Style.paddingLeft st = PaddingNumber 0 /\
     Style.paddingRight st = PaddingNumber 0 /\
     Style.left st = target_field s dom x /\
     Style.top st = target_field s dom y /\
     (closing s || opening s = true ->
      Style.width st = SizeNumber (target_field s dom width) /\
      Style.height st = SizeNumber (target_field s dom height)) /\
     (closing s = true ->
      Style.width st = SizeNumber (target_field s dom width) /\
      Style.height st = SizeNumber (target_field s dom height)) /\
     (closing s || opening s = false ->
      Style.width st = SizeFull /\ Style.height st = SizeFull)) /\
    (updating s || closing s = false ->
     Style.left st = 0 /\
     Style.top st = 0 /\
     Style.paddingLeft st = PaddingPx (left s dom img) /\
     Style.paddingRight st = PaddingPx (left s dom img)).
Proof.
  intros s dom img st. unfold st, style. simpl.
  unfold _left, _top, _width, _height, animating.
  split; intro U; rewrite U.
  - rewrite !target_or_0_field.
    split; [reflexivity|]. split; [reflexivity|].
    split; [reflexivity|]. split; [reflexivity|].
    split; [|split].
    + intro A. rewrite A. split; reflexivity.
    + intro C. rewrite C. simpl. split; reflexivity.
    + intro A. rewrite A. split; reflexivity.
  - repeat split.
Qed.

(** C5, as stated, fails: in a state where [updating] is set and neither
    [opening] nor [closing] is, with a target 50 wide and 50 high, the
    container is '100%' wide and high. *)
Lemma container_style_updating_only :
  let d := dom_natural (lit 1000) (lit 1000) in
  let st := style updating_only d (Some the_img) in
  updating updating_only = true /\
  target_field updating_only d width = lit 50 /\
  target_field updating_only d height = lit 50 /\
  Style.width st = SizeFull /\
  Style.height st = SizeFull /\
  Style.width st <> SizeNumber (target_field updating_only d width) /\
  Style.height st <> SizeNumber (target_field updating_only d height).
Proof.
  intros d st. repeat split; discriminate.
Qed.

(** ** The controller *)

Lemma controller_step (w : World) (e : Event) :
  controller (step w e) = controller w.
Proof.
  assert (F : forall es w', controller (run_effects es w') = controller w').
  { induction es as [|a es IH]; intro w'; [reflexivity|].
    unfold run_effects in *. simpl. rewrite IH. destruct a; reflexivity. }
  destruct e; simpl; try apply F; try reflexivity.
  destruct (next_timer (timers w)) as [[t rest]|]; [|reflexivity].
  destruct (due t <=? clock w); reflexivity.
Qed.

Lemma controller_run (es : list Event) (w : World) :
  controller (run w es) = controller w.
Proof.
  revert w. induction es as [|e es IH]; intro w; [reflexivity|].
  unfold run in *. simpl. rewrite IH. apply controller_step.
Qed.

(** C7. Called with a string source and no animation target, the
    controller's [openView] passes on the static rectangle with
    [x = innerWidth / 2], [y = innerHeight / 2], [width = 10] and
    [height = 10], which is {500, 500, 10, 10} in a 1000 x 1000 window;
    whatever happened on the page since it was mounted, that rectangle is
    the [animationTarget] the component then holds. *)
Theorem openView_fallback_target :
  forall (window0 : Window) (url : string),
    (forall win : Window,
        AnimatedPhotoViewController.openView_arguments win (SourceString url) None
        = (ImageSourceResolver.new (SourceString url), fallback_target win) /\
        forall d : Dom,
          x d (fallback_target win) = innerWidth win / lit 2 /\
          y d (fallback_target win) = innerHeight win / lit 2 /\
          width d (fallback_target win) = lit 10 /\
          height d (fallback_target win) = lit 10) /\
    fallback_target window_1000
    = CustomTarget
        (CustomAnimationTarget.new (lit 500) (lit 500) (lit 10) (lit 10)) /\
    (forall es : list Event,
        let w := run (mount window0) es in
        animationTarget
          (state (step w (ControllerOpenView (SourceString url) None)))
        = Some (fallback_target (window w))).
Proof.
  intros window0 url. split; [|split].
  - intro win. split; [reflexivity|]. intro d. repeat split.
  - unfold fallback_target. f_equal.
    assert (E : lit 1000 / lit 2 = lit 500) by (apply Qc_is_canon; reflexivity).
    simpl. rewrite E. reflexivity.
  - intros es w.
    assert (C : controller w = controller (mount window0))
      by apply controller_run.
    unfold step, AnimatedPhotoViewController.openView. simpl.
    rewrite C. reflexivity.
Qed.

(** ** The handlers *)

Lemma openView_guard (s : ViewerState) (r : ImageSourceResolver.t)
  (t : AnimationTargetRef) :
  animating s = true -> openView s r t = [].
Proof. intro A. unfold openView. rewrite A. reflexivity. Qed.

Lemma closeView_guard (s : ViewerState) (a : option AnimationTargetRef) :
  animating s = true -> closeView s a = [].
Proof. intro A. unfold closeView. rewrite A. reflexivity. Qed.

(** X1. The handler on the image is the one of the current render: a click
    while an opening or a closing is in progress changes nothing, neither
    the state nor the pending timers. *)
Lemma ImageClick_while_animating (w : World) :
  animating (state w) = true -> step w ImageClick = w.
Proof.
  intro A. unfold step. rewrite closeView_guard by exact A. reflexivity.
Qed.

(** A click 500 ms into the opening of the example page. *)
Lemma ImageClick_while_animating_witness :
  animating (state while_opening) = true /\
  step while_opening ImageClick = while_opening.
Proof.
  split; [reflexivity|]. apply ImageClick_while_animating. reflexivity.
Defined.

(** So do the calls through a controller that holds the handlers of the
    current render. *)
Lemma rebound_calls_while_animating (w : World) (e : Event) :
  animating (state w) = true ->
  match e with
  | ControllerOpenView _ _ | ControllerOpenViewFromElement _ _
  | ControllerCloseView _ | ImageClick => step (rebound w) e = rebound w
  | _ => True
  end.
Proof.
  intro A. destruct e; try exact I; unfold step; simpl.
  - unfold AnimatedPhotoViewController.openView. simpl.
    rewrite openView_guard by exact A. reflexivity.
  - unfold AnimatedPhotoViewController.openViewFromElement,
      AnimatedPhotoViewController.openView. simpl.
    rewrite openView_guard by exact A. reflexivity.
  - rewrite closeView_guard by exact A. reflexivity.
  - rewrite closeView_guard by exact A. reflexivity.
Qed.

(** ** Opening and closing exclude each other when the guard sees the
    current state *)

Lemma lowers_callback (cb : Callback) :
  forallb lowers cb = true ->
  forall s : ViewerState,
    opening s && closing s = false ->
    opening (run_callback cb s) && closing (run_callback cb s) = false.
Proof.
  unfold run_callback.
  induction cb as [|a cb IH]; intros L s E; [exact E|].
  simpl in L. apply andb_true_iff in L. destruct L as [La Lcb].
  simpl. apply (IH Lcb).
  destruct a as [b|b|b|t|r|b|n|n]; simpl; try exact E;
    destruct b; try discriminate La.
  - reflexivity.
  - apply andb_false_r.
Qed.

Lemma next_timer_Forall (P : Timer -> Prop) (ts : list Timer) :
  Forall P ts ->
  forall t rest, next_timer ts = Some (t, rest) -> P t /\ Forall P rest.
Proof.
  induction 1 as [|t0 ts Pt0 Pts IH]; intros t rest E; [discriminate E|].
  simpl in E. destruct (next_timer ts) as [[t' rest']|].
  - destruct (IH t' rest' eq_refl) as [Pt' Prest'].
    destruct (due t' <? due t0); inversion E; subst; auto.
  - inversion E; subst. auto.
Qed.

Lemma exclusive_mount (window0 : Window) : exclusive (mount window0).
Proof. split; [reflexivity | constructor]. Qed.

Lemma exclusive_open (w : World) (r : ImageSourceResolver.t)
  (t : AnimationTargetRef) :
  exclusive w -> exclusive (run_effects (openView (state w) r t) w).
Proof.
  intros [E T]. unfold openView.
  destruct (animating (state w)) eqn:A; [split; assumption|].
  apply orb_false_iff in A. destruct A as [C O].
  split.
  - unfold run_effects. simpl. exact C.
  - unfold run_effects. simpl. rewrite !Forall_app. repeat split; auto.
Qed.

Lemma exclusive_close (w : World) (a : option AnimationTargetRef) :
  exclusive w -> exclusive (run_effects (closeView (state w) a) w).
Proof.
  intros [E T]. unfold closeView.
  destruct (animating (state w)) eqn:A; [split; assumption|].
  apply orb_false_iff in A. destruct A as [C O].
  split.
  - unfold run_effects. simpl. rewrite O. reflexivity.
  - unfold run_effects. simpl. rewrite !Forall_app. repeat split; auto.
Qed.

Lemma exclusive_TimerFires (w : World) :
  exclusive w -> exclusive (step w TimerFires).
Proof.
  intros [E T]. simpl.
  destruct (next_timer (timers w)) as [[t rest]|] eqn:N; [|split; assumption].
  destruct (due t <=? clock w); [|split; assumption].
  destruct (next_timer_Forall _ _ T t rest N) as [Lt Lrest].
  split; [|exact Lrest]. simpl. apply lowers_callback; assumption.
Qed.

Lemma exclusive_rebound_step (w : World) (e : Event) :
  exclusive w -> exclusive (step (rebound w) e).
Proof.
  intro X. destruct e; unfold step.
  - unfold AnimatedPhotoViewController.openView. simpl.
    apply (exclusive_open (rebound w)). exact X.
  - unfold AnimatedPhotoViewController.openViewFromElement,
      AnimatedPhotoViewController.openView. simpl.
    apply (exclusive_open (rebound w)). exact X.
  - simpl. apply (exclusive_close (rebound w)). exact X.
  - apply (exclusive_close (rebound w)). exact X.
  - destruct X as [E T]. split; [exact E | exact T].
  - exact X.
  - apply (exclusive_TimerFires (rebound w)). exact X.
Qed.

(** Had every call gone through the handlers of the current render,
    [opening] and [closing] would never be set together. *)
Lemma exclusive_run_rebound (window0 : Window) (es : list Event) :
  exclusive (run_rebound (mount window0) es).
Proof.
  assert (G : forall w, exclusive w -> exclusive (run_rebound w es)).
  { induction es as [|e es IH]; intros w X; [exact X|].
    unfold run_rebound in *. simpl. apply IH.
    apply exclusive_rebound_step. exact X. }
  apply G, exclusive_mount.
Qed.

(** ** A close from the steady open state *)

Section Close.

Variable s : ViewerState.
Variable now : nat.

Hypothesis steady : opening s = false /\ closing s = false /\ updating s = false.

Lemma close_phase_step (w : World) (e : Event) :
  passive e = true -> close_phase s now w -> close_phase s now (step w e).
Proof.
  destruct steady as (So & Sc & Su).
  intros P Ph. destruct e; try discriminate P; clear P.
  - destruct Ph as [[T S]|[[T S]|[T [S C]]]].
    + left. split; assumption.
    + right. left. split; assumption.
    + right. right. repeat split; try assumption. simpl. lia.
  - unfold step. destruct Ph as [[T S]|[[T S]|[T [S C]]]]; rewrite T.
    + assert (L : (due (finish_timer now) <? due (pulse_timer now)) = false)
        by (apply Nat.ltb_ge; unfold finish_timer, pulse_timer; simpl; lia).
      cbn [next_timer]. rewrite L.
      destruct (due (pulse_timer now) <=? clock w);
        [|left; split; assumption].
      right. left. split; [reflexivity|]. simpl state. rewrite S.
      destruct s. simpl in *. subst. reflexivity.
    + cbn [next_timer].
      destruct (due (finish_timer now) <=? clock w) eqn:D;
        [|right; left; split; assumption].
      right. right. split; [reflexivity|]. split.
      * simpl state. rewrite S. destruct s. simpl in *. subst. reflexivity.
      * apply Nat.leb_le in D. exact D.
    + simpl. right. right. repeat split; assumption.
Qed.

Lemma close_phase_run (es : list Event) :
  forallb passive es = true ->
  forall w, close_phase s now w -> close_phase s now (run w es).
Proof.
  induction es as [|e es IH]; intros P w Ph; [exact Ph|].
  simpl in P. apply andb_true_iff in P. destruct P as [Pe Pes].
  unfold run in *. simpl. apply (IH Pes). apply close_phase_step; assumption.
Qed.

Lemma close_phase_frame (w : World) :
  close_phase s now w ->
  animationTarget (state w) = animationTarget s /\
  source (state w) = source s /\
  opening (state w) = opening s /\
  bodyWidth (state w) = bodyWidth s /\
  bodyHeight (state w) = bodyHeight s /\
  (visible s = true -> visible (state w) = false ->
   (now + duration <= clock w)%nat).
Proof.
  intros [[T S]|[[T S]|[T [S C]]]]; rewrite S; repeat split;
    try (intros V F; simpl in F; congruence).
Qed.

End Close.

(** A due timer runs. *)
Lemma step_TimerFires (s : ViewerState) (win : Window)
  (c : AnimatedPhotoViewController.t) (k : nat) (ts : list Timer)
  (t : Timer) (rest : list Timer) :
  next_timer ts = Some (t, rest) ->
  (due t <=? k) = true ->
  step (mkWorld s win c k ts) TimerFires
  = mkWorld (run_callback (callback t) s) win c k rest.
Proof. intros N D. simpl. rewrite N, D. reflexivity. Qed.

Lemma close_completes (s : ViewerState) :
  opening s = false -> closing s = false -> updating s = false ->
  run_callback [setClosing false; setVisible false]
    (run_callback [setUpdating false]
       (apply_set (setClosing true) (apply_set (setUpdating true) s)))
  = apply_set (setVisible false) s.
Proof. destruct s; simpl; intros; subst; reflexivity. Qed.

(** C10. [closeView] does the same whatever [animateTo] it is given.  In a
    page whose view is open with nothing in progress and nothing pending, a
    close - a click on the image, or the handler called with any
    [animateTo] - sets [updating] and [closing] and nothing else; while time
    passes and its timers run, [animationTarget], [source], [opening] and
    the window size stay as they were, and [visible] is not lowered before
    [duration] has elapsed; once [duration] has elapsed and the timers have
    run, the state is the one before the close with [visible] lowered. *)
Theorem closeView_frame :
  forall (w : World) (animateTo : option AnimationTargetRef) (es : list Event),
    visible (state w) = true ->
    opening (state w) = false ->
    closing (state w) = false ->
    updating (state w) = false ->
    timers w = [] ->
    forallb passive es = true ->
    let s := state w in
    let w1 := run_effects (closeView s animateTo) w in
    let w' := run w1 es in
    closeView s animateTo = closeView s None /\
    w1 = step w ImageClick /\
    state w1 = apply_set (setClosing true) (apply_set (setUpdating true) s) /\
    animationTarget (state w') = animationTarget s /\
    source (state w') = source s /\
    opening (state w') = opening s /\
    bodyWidth (state w') = bodyWidth s /\
    bodyHeight (state w') = bodyHeight s /\
    (visible (state w') = false -> (clock w + duration <= clock w')%nat) /\
    state (wait duration w1) = apply_set (setVisible false) s.
Proof.
  intros w animateTo es V O C U T P s w1 w'.
  assert (A : animating s = false).
  { unfold animating, s. rewrite O, C. reflexivity. }
  assert (W1 : w1 = mkWorld
                      (apply_set (setClosing true)
                         (apply_set (setUpdating true) s))
                      (window w) (controller w) (clock w)
                      [pulse_timer (clock w); finish_timer (clock w)]).
  { unfold w1, closeView. rewrite A. unfold run_effects. simpl.
    rewrite T. reflexivity. }
  assert (St : opening s = false /\ closing s = false /\ updating s = false).
  { unfold s. auto. }
  assert (Ph : close_phase s (clock w) w1).
  { left. rewrite W1. split; reflexivity. }
  pose proof (close_phase_frame s (clock w) w'
                (close_phase_run s (clock w) St es P w1 Ph))
    as (Ft & Fs & Fo & Fw & Fh & Fv).
  split; [reflexivity|]. split; [reflexivity|].
  split; [rewrite W1; reflexivity|].
  split; [exact Ft|]. split; [exact Fs|]. split; [exact Fo|].
  split; [exact Fw|]. split; [exact Fh|].
  split; [exact (Fv V)|].
  rewrite W1. unfold wait, settle. simpl timers. cbn [List.length fire_due].
  change (step _ (Elapse duration))
    with (mkWorld
            (apply_set (setClosing true) (apply_set (setUpdating true) s))
            (window w) (controller w) (clock w + duration)
            [pulse_timer (clock w); finish_timer (clock w)]).
  rewrite (step_TimerFires _ _ _ _ _ (pulse_timer (clock w))
             [finish_timer (clock w)]).
  - rewrite (step_TimerFires _ _ _ _ _ (finish_timer (clock w)) []).
    + cbn [state]. destruct St as (So & Sc & Su).
      apply close_completes; assumption.
    + reflexivity.
    + apply Nat.leb_le. unfold finish_timer. simpl. lia.
  - cbn [next_timer].
    replace (due (finish_timer (clock w)) <? due (pulse_timer (clock w)))
      with false; [reflexivity|].
    symmetry. apply Nat.ltb_ge. unfold finish_timer, pulse_timer. simpl. lia.
  - apply Nat.leb_le. unfold pulse_timer. simpl. lia.
Qed.

(** The open view of the example page, closed by a handler that is given a
    rectangle to animate to: two seconds later the view is hidden and still
    holds the thumbnail it was opened from. *)
Lemma closeView_frame_witness :
  let w := fully_open in
  let w1 := run_effects (closeView (state w) (Some other_thumbnail)) w in
  visible (state w) = true /\
  timers w = [] /\
  w1 = step w ImageClick /\
  animationTarget (state (run w1 [TimerFires; Elapse 2000; TimerFires]))
  = Some thumbnail /\
  state (wait duration w1) = apply_set (setVisible false) (state w).
Proof.
  intros w w1.
  assert (V : visible (state w) = true) by reflexivity.
  assert (O : opening (state w) = false) by reflexivity.
  assert (C : closing (state w) = false) by reflexivity.
  assert (U : updating (state w) = false) by reflexivity.
  assert (T : timers w = []) by reflexivity.
  assert (P : forallb passive [TimerFires; Elapse 2000; TimerFires] = true)
    by reflexivity.
  destruct (closeView_frame w (Some other_thumbnail)
              [TimerFires; Elapse 2000; TimerFires] V O C U T P)
    as (_ & I & _ & Ft & _ & _ & _ & _ & _ & F).
  split; [exact V|]. split; [exact T|]. split; [exact I|].
  split; [exact Ft|]. exact F.
Defined.

(** X12. Through the controller of a mounted page, while no transition is
    in progress, a close does what a click on the image does, whatever
    [animateTo] it is given. *)
Lemma ControllerCloseView_steady (window0 : Window) (es : list Event)
  (animateTo : option AnimationTargetRef) :
  let w := run (mount window0) es in
  animating (state w) = false ->
  step w (ControllerCloseView animateTo) = step w ImageClick.
Proof.
  intros w A. unfold step, w. rewrite controller_run. fold w.
  simpl. unfold closeView. rewrite A. reflexivity.
Qed.

(** ** Calls through the controller while a transition is in progress *)

(** C3, on the example page: 500 ms after "a.jpg" was opened the opening is
    in progress; the host's second [openView] is not dropped: it replaces
    [source] and [animationTarget], raises [updating] again and leaves two
    more timers pending.  So is a close made through the controller, which
    raises [closing] during the opening.  A click on the image at that
    moment changes nothing. *)
Theorem open_while_opening :
  let w := while_opening in
  let w' := step w open_b in
  opening (state w) = true /\
  clock w = 500%nat /\
  source (state w) = Some (ImageSourceResolver.new (SourceString "a.jpg")) /\
  animationTarget (state w) = Some thumbnail /\
  updating (state w) = false /\
  List.length (timers w) = 1%nat /\
  source (state w') = Some (ImageSourceResolver.new (SourceString "b.jpg")) /\
  animationTarget (state w') = Some other_thumbnail /\
  updating (state w') = true /\
  List.length (timers w') = 3%nat /\
  state w' <> state w /\
  closing (state (step w (ControllerCloseView None))) = true /\
  opening (state (step w (ControllerCloseView None))) = true /\
  step w ImageClick = w.
Proof.
  intros w w'. repeat split.
  intro E. assert (F : updating (state w') = updating (state w))
    by (rewrite E; reflexivity).
  discriminate F.
Qed.

(** C9, on the example page: the view is opened and the opening runs to its
    end; the user clicks the image and the close starts; 500 ms later the
    host opens "b.jpg".  Both [opening] and [closing] are then set. *)
Theorem opening_and_closing_together :
  let before := run (mount window_1000) (removelast open_during_close) in
  let w := run (mount window_1000) open_during_close in
  closing (state before) = true /\
  opening (state before) = false /\
  clock before = 2500%nat /\
  w = step before open_b /\
  opening (state w) = true /\
  closing (state w) = true.
Proof. repeat split. Qed.

(** A state with [updating] set and neither [opening] nor [closing] arises
    on the example page as well: the host opens "b.jpg" at the moment the
    opening of "a.jpg" is due to end, and the timer that ends it runs
    next. *)
Lemma updating_without_animating :
  let w := run (mount window_1000)
             [open_a; TimerFires; Elapse 2000; open_b; TimerFires] in
  updating (state w) = true /\
  opening (state w) = false /\
  closing (state w) = false /\
  visible (state w) = true /\
  Style.width (style (state w) (dom_natural (lit 1000) (lit 1000)) (Some the_img))
  = SizeFull.
Proof. repeat split. Qed.

(** ** A host that waits for transitions to end *)

Lemma exclusive_polite_step (window0 : Window) (w : World) (e : Event) :
  controller w = controller (mount window0) ->
  exclusive w -> polite w e = true -> exclusive (step w e).
Proof.
  intros K X P.
  assert (Ho : forall r t,
             AnimatedPhotoViewController._openView (controller w) r t
             = openView (state w) r t ->
             exclusive
               (run_effects
                  (AnimatedPhotoViewController._openView (controller w) r t) w)).
  { intros r t E. rewrite E. apply exclusive_open. exact X. }
  destruct e; simpl in P; try apply negb_true_iff in P.
  - unfold step, AnimatedPhotoViewController.openView.
    destruct (AnimatedPhotoViewController.openView_arguments _ _ _) as [r t].
    apply Ho. rewrite K. simpl. unfold openView. rewrite P. reflexivity.
  - unfold step, AnimatedPhotoViewController.openViewFromElement,
      AnimatedPhotoViewController.openView.
    destruct (AnimatedPhotoViewController.openView_arguments _ _ _) as [r t].
    apply Ho. rewrite K. simpl. unfold openView. rewrite P. reflexivity.
  - unfold step.
    replace (AnimatedPhotoViewController._closeView (controller w) animateTo)
      with (closeView (state w) animateTo)
      by (rewrite K; simpl; unfold closeView; rewrite P; reflexivity).
    apply exclusive_close. exact X.
  - unfold step. apply exclusive_close. exact X.
  - destruct X as [E T]. split; [exact E | exact T].
  - exact X.
  - apply exclusive_TimerFires. exact X.
Qed.

(** X3. While the host calls the controller only when no transition is in
    progress, [opening] and [closing] are never set together, whenever the
    image is clicked, the window resized and the timers run. *)
Lemma exclusive_polite_run (window0 : Window) (es : list Event) :
  polite_run (mount window0) es = true ->
  opening (state (run (mount window0) es))
  && closing (state (run (mount window0) es)) = false.
Proof.
  assert (G : forall w,
             controller w = controller (mount window0) ->
             exclusive w -> polite_run w es = true -> exclusive (run w es)).
  { induction es as [|e es IH]; intros w K X P; [exact X|].
    simpl in P. apply andb_true_iff in P. destruct P as [Pe Pes].
    unfold run in *. simpl. apply IH.
    - rewrite controller_step. exact K.
    - apply (exclusive_polite_step window0); assumption.
    - exact Pes. }
  intro P. apply (G (mount window0) eq_refl (exclusive_mount window0) P).
Qed.

(** An open, a full close started by a click, and a click during the
    close, on the example page. *)
Lemma exclusive_polite_run_witness :
  let es := [open_a; TimerFires; Elapse 2000; TimerFires; ImageClick;
             ImageClick; TimerFires; Elapse 2000; TimerFires] in
  polite_run (mount window_1000) es = true /\
  opening (state (run (mount window_1000) es))
  && closing (state (run (mount window_1000) es)) = false.
Proof.
  intro es.
  assert (P : polite_run (mount window_1000) es = true) by reflexivity.
  split; [exact P|]. exact (exclusive_polite_run window_1000 es P).
Defined.

(** ** The order in which timers run *)

Lemma next_timer_None (ts : list Timer) : next_timer ts = None -> ts = [].
Proof.
  destruct ts as [|t0 ts]; [reflexivity|]. simpl.
  destruct (next_timer ts) as [[t1 rest1]|]; [|discriminate].
  destruct (due t1 <? due t0); discriminate.
Qed.

Lemma next_timer_In (ts : list Timer) :
  forall t rest, next_timer ts = Some (t, rest) ->
  forall t', In t' ts -> t' = t \/ In t' rest.
Proof.
  induction ts as [|t0 ts IH]; intros t rest E t' I; [discriminate E|].
  simpl in E. destruct (next_timer ts) as [[t1 rest1]|] eqn:N.
  - destruct (due t1 <? due t0); inversion E; subst; clear E.
    + destruct I as [I|I]; [right; left; exact I|].
      destruct (IH _ _ eq_refl _ I) as [H|H]; [left; exact H|].
      right. right. exact H.
    + destruct I as [I|I]; [left; symmetry; exact I | right; exact I].
  - inversion E; subst.
    destruct I as [I|I]; [left; symmetry; exact I | right; exact I].
Qed.

Lemma next_timer_first (ts : list Timer) :
  forall t rest, next_timer ts = Some (t, rest) ->
  Forall (fun t' => (due t <= due t')%nat) ts.
Proof.
  induction ts as [|t0 ts IH]; intros t rest E; [discriminate E|].
  simpl in E. destruct (next_timer ts) as [[t1 rest1]|] eqn:N.
  - specialize (IH _ _ eq_refl).
    destruct (due t1 <? due t0) eqn:L; inversion E; subst; clear E.
    + apply Nat.ltb_lt in L. constructor; [lia | exact IH].
    + apply Nat.ltb_ge in L. constructor; [lia|].
      eapply Forall_impl; [|exact IH]. simpl. intros a Ha. lia.
  - apply next_timer_None in N. inversion E; subst.
    constructor; [lia | constructor].
Qed.

Lemma next_timer_length (ts : list Timer) :
  forall t rest, next_timer ts = Some (t, rest) ->
  List.length ts = S (List.length rest).
Proof.
  induction ts as [|t0 ts IH]; intros t rest E; [discriminate E|].
  simpl in E. destruct (next_timer ts) as [[t1 rest1]|] eqn:N.
  - destruct (due t1 <? due t0); inversion E; subst; clear E; simpl.
    + rewrite (IH _ _ eq_refl). reflexivity.
    + reflexivity.
  - inversion E; subst. reflexivity.
Qed.

Lemma next_timer_Exists (P : Timer -> Prop) (ts : list Timer) :
  forall t rest, next_timer ts = Some (t, rest) ->
  Exists P ts -> ~ P t -> Exists P rest.
Proof.
  intros t rest E X NP. apply Exists_exists in X. destruct X as (t' & I & Pt').
  apply Exists_exists. exists t'. split; [|exact Pt'].
  destruct (next_timer_In ts t rest E t' I) as [H|H]; [|exact H].
  subst t'. contradiction.
Qed.

Lemma next_timer_mem (ts : list Timer) :
  forall t rest, next_timer ts = Some (t, rest) -> In t ts.
Proof.
  induction ts as [|t0 ts IH]; intros t rest E; [discriminate E|].
  simpl in E. destruct (next_timer ts) as [[t1 rest1]|].
  - destruct (due t1 <? due t0); inversion E; subst.
    + right. apply (IH _ _ eq_refl).
    + left. reflexivity.
  - inversion E; subst. left. reflexivity.
Qed.

(** Timers that are not due stay pending. *)
Lemma step_TimerFires_idle (w : World) :
  Forall (fun t => (clock w < due t)%nat) (timers w) ->
  step w TimerFires = w.
Proof.
  intro Q. simpl. destruct (next_timer (timers w)) as [[t rest]|] eqn:N;
    [|reflexivity].
  rewrite Forall_forall in Q. specialize (Q t (next_timer_mem _ _ _ N)).
  destruct (due t <=? clock w) eqn:D; [|reflexivity].
  apply Nat.leb_le in D. lia.
Qed.

(** ** Raised flags have a timer that lowers them *)

Lemma pending_ok_mount (window0 : Window) : pending_ok (mount window0).
Proof.
  split; [constructor|]. repeat split; intro H; discriminate H.
Qed.

Lemma pending_ok_open (s' : ViewerState) (w : World)
  (r : ImageSourceResolver.t) (t : AnimationTargetRef) :
  pending_ok w -> pending_ok (run_effects (openView s' r t) w).
Proof.
  intros (F & U & O & C). unfold openView.
  destruct (animating s'); [repeat split; assumption|].
  unfold run_effects, update. cbn [app fold_left run_effect].
  unfold pending_ok. simpl.
  split; [|split; [|split]].
  - rewrite !Forall_app. split; [split|].
    + exact F.
    + constructor; [|constructor]. split; [left; reflexivity|].
      cbn [due]. lia.
    + constructor; [|constructor]. split; [right; left; reflexivity|].
      cbn [due]. lia.
  - intros _. apply Exists_app. left. apply Exists_app. right.
    constructor. split; [reflexivity|]. cbn [due]. lia.
  - intros _. apply Exists_app. right. constructor. reflexivity.
  - intro H. apply Exists_app. left. apply Exists_app. left. exact (C H).
Qed.

Lemma pending_ok_close (s' : ViewerState) (w : World)
  (a : option AnimationTargetRef) :
  pending_ok w -> pending_ok (run_effects (closeView s' a) w).
Proof.
  intros (F & U & O & C). unfold closeView.
  destruct (animating s'); [repeat split; assumption|].
  unfold run_effects, update. cbn [app fold_left run_effect].
  unfold pending_ok. simpl.
  split; [|split; [|split]].
  - rewrite !Forall_app. split; [split|].
    + exact F.
    + constructor; [|constructor]. split; [left; reflexivity|].
      cbn [due]. lia.
    + constructor; [|constructor]. split; [right; right; reflexivity|].
      cbn [due]. lia.
  - intros _. apply Exists_app. left. apply Exists_app. right.
    constructor. split; [reflexivity|]. cbn [due]. lia.
  - intro H. apply Exists_app. left. apply Exists_app. left. exact (O H).
  - intros _. apply Exists_app. right. constructor. reflexivity.
Qed.

Lemma pending_ok_TimerFires (w : World) :
  pending_ok w -> pending_ok (step w TimerFires).
Proof.
  intros (F & U & O & C). simpl.
  destruct (next_timer (timers w)) as [[t rest]|] eqn:N;
    [|repeat split; assumption].
  destruct (due t <=? clock w); [|repeat split; assumption].
  destruct (next_timer_Forall _ _ F t rest N) as [[Ht _] Frest].
  split; [exact Frest|]. cbn [state timers clock].
  destruct Ht as [E|[E|E]]; rewrite E; unfold run_callback;
    cbn [fold_left apply_set updating opening closing];
    (split; [|split]); intro H; try discriminate H.
  - apply (next_timer_Exists _ _ _ _ N (O H)). rewrite E. discriminate.
  - apply (next_timer_Exists _ _ _ _ N (C H)). rewrite E. discriminate.
  - apply (next_timer_Exists _ _ _ _ N (U H)). rewrite E.
    intros [D _]. discriminate D.
  - apply (next_timer_Exists _ _ _ _ N (C H)). rewrite E. discriminate.
  - apply (next_timer_Exists _ _ _ _ N (U H)). rewrite E.
    intros [D _]. discriminate D.
  - apply (next_timer_Exists _ _ _ _ N (O H)). rewrite E. discriminate.
Qed.

Lemma pending_ok_step (window0 : Window) (w : World) (e : Event) :
  controller w = controller (mount window0) ->
  pending_ok w -> pending_ok (step w e).
Proof.
  intros K P. destruct e; unfold step.
  - unfold AnimatedPhotoViewController.openView.
    destruct (AnimatedPhotoViewController.openView_arguments _ _ _) as [r t].
    rewrite K. apply pending_ok_open. exact P.
  - unfold AnimatedPhotoViewController.openViewFromElement,
      AnimatedPhotoViewController.openView.
    destruct (AnimatedPhotoViewController.openView_arguments _ _ _) as [r t].
    rewrite K. apply pending_ok_open. exact P.
  - rewrite K. apply pending_ok_close. exact P.
  - apply pending_ok_close. exact P.
  - destruct P as (F & U & O & C). repeat split; assumption.
  - destruct P as (F & U & O & C).
    split; [|split; [|split]]; cbn [state timers clock].
    + eapply Forall_impl; [|exact F]. simpl. intros t [H D].
      split; [exact H | lia].
    + intro H. eapply Exists_impl; [|exact (U H)]. simpl.
      intros t [E D]. split; [exact E | lia].
    + exact O.
    + exact C.
  - apply pending_ok_TimerFires. exact P.
Qed.

Lemma pending_ok_run (window0 : Window) (es : list Event) :
  pending_ok (run (mount window0) es).
Proof.
  assert (G : forall w,
             controller w = controller (mount window0) ->
             pending_ok w -> pending_ok (run w es)).
  { induction es as [|e es IH]; intros w K P; [exact P|].
    unfold run in *. simpl. apply IH.
    - rewrite controller_step. exact K.
    - apply (pending_ok_step window0); assumption. }
  apply G; [reflexivity | apply pending_ok_mount].
Qed.

(** ** Letting the due timers run *)

Lemma step_TimerFires_clock (w : World) :
  clock (step w TimerFires) = clock w.
Proof.
  simpl. destruct (next_timer (timers w)) as [[t rest]|]; [|reflexivity].
  destruct (due t <=? clock w); reflexivity.
Qed.

Lemma step_TimerFires_Forall (P : Timer -> Prop) (w : World) :
  Forall P (timers w) -> Forall P (timers (step w TimerFires)).
Proof.
  intro F. simpl. destruct (next_timer (timers w)) as [[t rest]|] eqn:N;
    [|exact F].
  destruct (due t <=? clock w); [|exact F].
  apply (next_timer_Forall _ _ F t rest N).
Qed.

Lemma fire_due_clock (n : nat) : forall w, clock (fire_due n w) = clock w.
Proof.
  induction n as [|n IH]; intro w; [reflexivity|].
  cbn [fire_due]. rewrite IH. apply step_TimerFires_clock.
Qed.

Lemma fire_due_Forall (P : Timer -> Prop) (n : nat) :
  forall w, Forall P (timers w) -> Forall P (timers (fire_due n w)).
Proof.
  induction n as [|n IH]; intros w F; [exact F|].
  cbn [fire_due]. apply IH. apply step_TimerFires_Forall. exact F.
Qed.

Lemma fire_due_pending_ok (n : nat) :
  forall w, pending_ok w -> pending_ok (fire_due n w).
Proof.
  induction n as [|n IH]; intros w P; [exact P|].
  cbn [fire_due]. apply IH. apply pending_ok_TimerFires. exact P.
Qed.

Lemma fire_due_idle (n : nat) (w : World) :
  Forall (fun t => (clock w < due t)%nat) (timers w) -> fire_due n w = w.
Proof.
  intro Q. induction n as [|n IH]; [reflexivity|].
  cbn [fire_due]. rewrite (step_TimerFires_idle w Q). exact IH.
Qed.

(** Once as many timers have been given their turn as were pending, none
    that is left is due. *)
Lemma fire_due_settles (n : nat) :
  forall w, (List.length (timers w) <= n)%nat ->
  Forall (fun t => (clock w < due t)%nat) (timers (fire_due n w)).
Proof.
  induction n as [|n IH]; intros w L.
  - simpl. destruct (timers w); [constructor | simpl in L; lia].
  - cbn [fire_due].
    destruct (next_timer (timers w)) as [[t rest]|] eqn:N.
    + destruct (due t <=? clock w) eqn:D.
      * assert (S : step w TimerFires
                    = mkWorld (run_callback (callback t) (state w)) (window w)
                        (controller w) (clock w) rest)
          by (simpl; rewrite N, D; reflexivity).
        rewrite S. apply (IH (mkWorld _ _ _ _ _)). simpl.
        rewrite (next_timer_length _ _ _ N) in L. lia.
      * assert (Q : Forall (fun t' => (clock w < due t')%nat) (timers w)).
        { apply Nat.leb_gt in D.
          eapply Forall_impl; [|exact (next_timer_first _ _ _ N)].
          simpl. intros a Ha. lia. }
        rewrite (step_TimerFires_idle w Q), (fire_due_idle n w Q). exact Q.
    + apply next_timer_None in N.
      assert (Q : Forall (fun t' => (clock w < due t')%nat) (timers w))
        by (rewrite N; constructor).
      rewrite (step_TimerFires_idle w Q), (fire_due_idle n w Q). exact Q.
Qed.

Lemma settle_not_due (w : World) :
  Forall (fun t => (clock w < due t)%nat) (timers (settle w)).
Proof. apply fire_due_settles. apply Nat.le_refl. Qed.

(** X4. The pulse lasts one turn of the timers: whatever happened on a
    mounted page, once the timers that are due have run, [updating] is
    lowered. *)
Theorem pulse_ends :
  forall (window0 : Window) (es : list Event),
    updating (state (settle (run (mount window0) es))) = false.
Proof.
  intros window0 es. set (w := run (mount window0) es).
  pose proof (fire_due_pending_ok (List.length (timers w)) w
                (pending_ok_run window0 es)) as (_ & U & _ & _).
  fold (settle w) in U.
  destruct (updating (state (settle w))) eqn:E; [|reflexivity].
  exfalso. specialize (U eq_refl). apply Exists_exists in U.
  destruct U as (t & I & _ & D).
  pose proof (settle_not_due w) as Q. rewrite Forall_forall in Q.
  specialize (Q t I). unfold settle in D. rewrite fire_due_clock in D. lia.
Qed.

(** X5. No transition outlasts [duration]: whatever happened on a mounted
    page, once [duration] has elapsed without a further call and the timers
    have run, nothing is pending, [opening], [closing] and [updating] are
    lowered, and the container has no transition and fills the viewport. *)
Theorem transitions_end :
  forall (window0 : Window) (es : list Event) (dom : Dom)
         (img : option HTMLImageElement),
    let w := run (mount window0) es in
    let w' := wait duration w in
    timers w' = [] /\
    clock w' = (clock w + duration)%nat /\
    opening (state w') = false /\
    closing (state w') = false /\
    updating (state w') = false /\
    Style.transition (style (state w') dom img) = None /\
    Style.width (style (state w') dom img) = SizeFull /\
    Style.height (style (state w') dom img) = SizeFull /\
    Style.left (style (state w') dom img) = 0 /\
    Style.top (style (state w') dom img) = 0.
Proof.
  intros window0 es dom img w w'.
  pose proof (pending_ok_run window0 es) as P. fold w in P.
  set (w1 := step w (Elapse duration)).
  assert (P1 : pending_ok w1)
    by (apply (pending_ok_step window0); [apply controller_run | exact P]).
  assert (A : Forall (fun t => (due t <= clock w1)%nat) (timers w1)).
  { destruct P as (F & _). eapply Forall_impl; [|exact F].
    simpl. intros t [_ D]. exact D. }
  assert (T : timers (settle w1) = []).
  { pose proof (settle_not_due w1) as Q.
    pose proof (fire_due_Forall _ (List.length (timers w1)) w1 A) as A'.
    fold (settle w1) in A'.
    destruct (timers (settle w1)) as [|t ts]; [reflexivity|]. exfalso.
    inversion Q as [|? ? Qt _]. inversion A' as [|? ? At _].
    revert Qt At. generalize (clock w1) (due t). intros. lia. }
  pose proof (fire_due_pending_ok (List.length (timers w1)) w1 P1)
    as (_ & U & O & C).
  fold (settle w1) in U, O, C. rewrite T in U, O, C.
  change (settle w1) with w' in *.
  assert (Eo : opening (state w') = false).
  { destruct (opening (state w')); [|reflexivity].
    specialize (O eq_refl). inversion O. }
  assert (Ec : closing (state w') = false).
  { destruct (closing (state w')); [|reflexivity].
    specialize (C eq_refl). inversion C. }
  assert (Eu : updating (state w') = false).
  { destruct (updating (state w')); [|reflexivity].
    specialize (U eq_refl). inversion U. }
  split; [exact T|]. split.
  { unfold w', wait, settle. rewrite fire_due_clock. reflexivity. }
  split; [exact Eo|]. split; [exact Ec|]. split; [exact Eu|].
  unfold style, animating, _left, _top. simpl.
  rewrite Eo, Ec, Eu. simpl. repeat split.
Qed.

(** ** An opening, from start to end *)

Lemma quiet_flags (w : World) :
  pending_ok w -> timers w = [] ->
  opening (state w) = false /\ closing (state w) = false /\
  updating (state w) = false.
Proof.
  intros (_ & U & O & C) T. rewrite T in U, O, C. repeat split.
  - destruct (opening (state w)); [|reflexivity].
    specialize (O eq_refl). inversion O.
  - destruct (closing (state w)); [|reflexivity].
    specialize (C eq_refl). inversion C.
  - destruct (updating (state w)); [|reflexivity].
    specialize (U eq_refl). inversion U.
Qed.

Lemma run_app (w : World) (es es' : list Event) :
  run w (es ++ es') = run (run w es) es'.
Proof. unfold run. apply fold_left_app. Qed.

(** A pulse and the end of a transition, both scheduled at the clock's
    time, run in that order once [duration] has elapsed. *)
Lemma run_two_timers (s : ViewerState) (win : Window)
  (c : AnimatedPhotoViewController.t) (k : nat) (cb1 cb2 : Callback) :
  run (mkWorld s win c k [mkTimer (k + 0) cb1; mkTimer (k + duration) cb2])
    [Elapse duration; TimerFires; TimerFires]
  = mkWorld (run_callback cb2 (run_callback cb1 s)) win c (k + duration) [].
Proof.
  unfold run. cbn [fold_left].
  change (step _ (Elapse duration))
    with (mkWorld s win c (k + duration)
            [mkTimer (k + 0) cb1; mkTimer (k + duration) cb2]).
  rewrite (step_TimerFires _ _ _ _ _ (mkTimer (k + 0) cb1)
             [mkTimer (k + duration) cb2]).
  - rewrite (step_TimerFires _ _ _ _ _ (mkTimer (k + duration) cb2) []).
    + reflexivity.
    + reflexivity.
    + apply Nat.leb_le. cbn [due]. lia.
  - cbn [next_timer due].
    replace (k + duration <? k + 0) with false; [reflexivity|].
    symmetry. apply Nat.ltb_ge. lia.
  - apply Nat.leb_le. cbn [due]. lia.
Qed.

Lemma open_phase_step (s : ViewerState) (r : ImageSourceResolver.t)
  (t : AnimationTargetRef) (now : nat) (w : World) (e : Event) :
  passive e = true -> open_phase s r t now w -> open_phase s r t now (step w e).
Proof.
  intros P Ph. destruct e; try discriminate P; clear P.
  - destruct Ph as [[T S]|[[T S]|[T [S C]]]].
    + left. split; assumption.
    + right. left. split; assumption.
    + right. right. repeat split; try assumption. simpl. lia.
  - unfold step. destruct Ph as [[T S]|[[T S]|[T [S C]]]]; rewrite T.
    + assert (L : (due (opening_timer now) <? due (pulse_timer now)) = false)
        by (apply Nat.ltb_ge; unfold opening_timer, pulse_timer;
            cbn [due]; lia).
      cbn [next_timer]. rewrite L.
      destruct (due (pulse_timer now) <=? clock w);
        [|left; split; assumption].
      right. left. split; [reflexivity|]. cbn [state]. rewrite S.
      reflexivity.
    + cbn [next_timer].
      destruct (due (opening_timer now) <=? clock w) eqn:D;
        [|right; left; split; assumption].
      right. right. split; [reflexivity|]. split.
      * cbn [state]. rewrite S. reflexivity.
      * apply Nat.leb_le in D. exact D.
    + simpl. right. right. repeat split; assumption.
Qed.

Lemma open_phase_run (s : ViewerState) (r : ImageSourceResolver.t)
  (t : AnimationTargetRef) (now : nat) (es : list Event) :
  forallb passive es = true ->
  forall w, open_phase s r t now w -> open_phase s r t now (run w es).
Proof.
  induction es as [|e es IH]; intros P w Ph; [exact Ph|].
  simpl in P. apply andb_true_iff in P. destruct P as [Pe Pes].
  unfold run in *. simpl. apply (IH Pes). apply open_phase_step; assumption.
Qed.

Lemma open_phase_frame (s : ViewerState) (r : ImageSourceResolver.t)
  (t : AnimationTargetRef) (now : nat) (w : World) :
  open_phase s r t now w ->
  visible (state w) = true /\
  source (state w) = Some r /\
  animationTarget (state w) = Some t /\
  closing (state w) = closing s /\
  bodyWidth (state w) = bodyWidth s /\
  bodyHeight (state w) = bodyHeight s /\
  (opening (state w) = false -> (now + duration <= clock w)%nat) /\
  (updating (state w) = true -> timers w = [pulse_timer now; opening_timer now]).
Proof.
  intros [[T S]|[[T S]|[T [S C]]]]; rewrite S; repeat split;
    try (intro F; simpl in F; congruence).
Qed.

(** The world a call of [openView] that is not dropped leaves. *)
Lemma run_effects_openView (s' : ViewerState) (w : World)
  (r : ImageSourceResolver.t) (t : AnimationTargetRef) :
  animating s' = false ->
  run_effects (openView s' r t) w
  = mkWorld (opening_started (state w) r t) (window w) (controller w)
      (clock w) (timers w ++ [pulse_timer (clock w); opening_timer (clock w)]).
Proof.
  intro A. unfold openView. rewrite A. unfold run_effects. simpl.
  rewrite <- app_assoc. reflexivity.
Qed.

Lemma run_effects_closeView (s' : ViewerState) (w : World)
  (a : option AnimationTargetRef) :
  animating s' = false ->
  run_effects (closeView s' a) w
  = mkWorld (apply_set (setClosing true) (apply_set (setUpdating true) (state w)))
      (window w) (controller w) (clock w)
      (timers w ++ [pulse_timer (clock w); finish_timer (clock w)]).
Proof.
  intro A. unfold closeView. rewrite A. unfold run_effects. simpl.
  rewrite <- app_assoc. reflexivity.
Qed.

(** What a call of the controller's [openView] on a mounted page does. *)
Lemma step_ControllerOpenView (window0 : Window) (es0 : list Event)
  (source : ImageSource) (animationTarget : option AnimationTargetRef) :
  let w := run (mount window0) es0 in
  let rt := AnimatedPhotoViewController.openView_arguments (window w) source
              animationTarget in
  step w (ControllerOpenView source animationTarget)
  = mkWorld (opening_started (state w) (fst rt) (snd rt)) (window w)
      (controller w) (clock w)
      (timers w ++ [pulse_timer (clock w); opening_timer (clock w)]).
Proof.
  intros w rt. unfold step, AnimatedPhotoViewController.openView.
  fold rt. destruct rt as [r t]. unfold w at 1. rewrite controller_run.
  fold w. apply (run_effects_openView (initial_state window0)). reflexivity.
Qed.

(** X6. On a mounted page with no timer pending, a call of the
    controller's [openView] raises [visible], [opening] and [updating] and
    stores the source and the resolved target.  While time passes and its
    timers run, the view stays visible with that source and target,
    [closing] stays lowered, and [opening] is not lowered before [duration]
    has elapsed; once [duration] has elapsed and the two timers have run the
    view is open with nothing in progress and nothing pending. *)
Theorem openView_sequence :
  forall (window0 : Window) (es0 : list Event) (source0 : ImageSource)
         (target0 : option AnimationTargetRef) (es : list Event),
    let w := run (mount window0) es0 in
    timers w = [] ->
    forallb passive es = true ->
    let rt := AnimatedPhotoViewController.openView_arguments (window w) source0
                target0 in
    let w1 := step w (ControllerOpenView source0 target0) in
    let w' := run w1 es in
    state w1 = mkViewerState true true false (Some (snd rt))
                 (bodyWidth (state w)) (bodyHeight (state w)) (Some (fst rt))
                 true /\
    visible (state w') = true /\
    source (state w') = Some (fst rt) /\
    animationTarget (state w') = Some (snd rt) /\
    closing (state w') = false /\
    (opening (state w') = false -> (clock w + duration <= clock w')%nat) /\
    run w1 [Elapse duration; TimerFires; TimerFires]
    = mkWorld
        (mkViewerState true false false (Some (snd rt))
           (bodyWidth (state w)) (bodyHeight (state w)) (Some (fst rt)) false)
        (window w) (controller w) (clock w + duration) [].
Proof.
  intros window0 es0 source0 target0 es w T P rt w1 w'.
  destruct (quiet_flags w (pending_ok_run window0 es0) T) as (Fo & Fc & Fu).
  assert (W1 : w1 = mkWorld (opening_started (state w) (fst rt) (snd rt))
                      (window w) (controller w) (clock w)
                      [pulse_timer (clock w); opening_timer (clock w)]).
  { unfold w1. unfold w at 1.
    rewrite (step_ControllerOpenView window0 es0 source0 target0).
    fold w. rewrite T. reflexivity. }
  assert (Ph : open_phase (state w) (fst rt) (snd rt) (clock w) w1).
  { left. rewrite W1. split; reflexivity. }
  pose proof (open_phase_frame _ _ _ _ w'
                (open_phase_run _ _ _ _ es P w1 Ph))
    as (Hv & Hs & Ht & Hc & _ & _ & Ho & _).
  clearbody w' rt. clearbody w1. clearbody w.
  split; [rewrite W1; unfold opening_started; simpl; rewrite Fc; reflexivity|].
  split; [exact Hv|]. split; [exact Hs|]. split; [exact Ht|].
  split; [rewrite Hc; exact Fc|]. split; [exact Ho|].
  rewrite W1. unfold pulse_timer, opening_timer. rewrite run_two_timers.
  unfold opening_started, run_callback. simpl. rewrite Fc. reflexivity.
Qed.

(** Opening "a.jpg" from the thumbnail on the freshly mounted example page;
    one second later the opening is still in progress. *)
Lemma openView_sequence_witness :
  let w := run (mount window_1000) [] in
  let w1 := step w open_a in
  timers w = [] /\
  animationTarget (state (run w1 [TimerFires; Elapse 1000])) = Some thumbnail /\
  visible (state (run w1 [TimerFires; Elapse 1000])) = true /\
  state (run w1 [Elapse duration; TimerFires; TimerFires])
  = mkViewerState true false false (Some thumbnail) (lit 1000) (lit 1000)
      (Some (ImageSourceResolver.new (SourceString "a.jpg"))) false.
Proof.
  intros w w1.
  assert (T : timers w = []) by reflexivity.
  assert (P : forallb passive [TimerFires; Elapse 1000] = true) by reflexivity.
  destruct (openView_sequence window_1000 [] (SourceString "a.jpg")
              (Some thumbnail) [TimerFires; Elapse 1000] T P)
    as (_ & V & _ & Ht & _ & _ & F).
  split; [exact T|]. split; [exact Ht|]. split; [exact V|].
  change w1 with (step (run (mount window_1000) [])
                    (ControllerOpenView (SourceString "a.jpg") (Some thumbnail))).
  rewrite F. reflexivity.
Defined.

(** X7. A full cycle on a mounted page with no timer pending - an open
    through the controller, [duration] for the opening, a click on the
    image, [duration] for the closing - ends with the view hidden, nothing in
    progress and nothing pending; the source and the target of the open are
    still stored, and the window size is as before. *)
Theorem open_close_cycle :
  forall (window0 : Window) (es0 : list Event) (source0 : ImageSource)
         (target0 : option AnimationTargetRef),
    let w := run (mount window0) es0 in
    timers w = [] ->
    let rt := AnimatedPhotoViewController.openView_arguments (window w) source0
                target0 in
    run w [ControllerOpenView source0 target0;
           Elapse duration; TimerFires; TimerFires;
           ImageClick;
           Elapse duration; TimerFires; TimerFires]
    = mkWorld
        (mkViewerState false false false (Some (snd rt))
           (bodyWidth (state w)) (bodyHeight (state w)) (Some (fst rt)) false)
        (window w) (controller w) (clock w + duration + duration) [].
Proof.
  intros window0 es0 source0 target0 w T rt.
  destruct (quiet_flags w (pending_ok_run window0 es0) T) as (Fo & Fc & Fu).
  change (run w [ControllerOpenView source0 target0;
                 Elapse duration; TimerFires; TimerFires;
                 ImageClick;
                 Elapse duration; TimerFires; TimerFires])
    with (run (step
                 (run (step w (ControllerOpenView source0 target0))
                    [Elapse duration; TimerFires; TimerFires])
                 ImageClick)
            [Elapse duration; TimerFires; TimerFires]).
  unfold w at 1. rewrite (step_ControllerOpenView window0 es0 source0 target0).
  fold w. fold rt. rewrite T. cbn [app]. clearbody rt. clearbody w.
  unfold pulse_timer at 1. unfold opening_timer. rewrite run_two_timers.
  cbn [step state]. rewrite run_effects_closeView.
  - cbn [state window controller clock timers app].
    unfold pulse_timer, finish_timer. rewrite run_two_timers.
    unfold opening_started, run_callback. simpl. reflexivity.
  - unfold animating, opening_started, run_callback. simpl.
    rewrite Fc. reflexivity.
Qed.

(** The cycle on the freshly mounted example page. *)
Lemma open_close_cycle_witness :
  timers (run (mount window_1000) []) = [] /\
  state (run (mount window_1000)
           [open_a; Elapse duration; TimerFires; TimerFires; ImageClick;
            Elapse duration; TimerFires; TimerFires])
  = mkViewerState false false false (Some thumbnail) (lit 1000) (lit 1000)
      (Some (ImageSourceResolver.new (SourceString "a.jpg"))) false.
Proof.
  assert (T : timers (run (mount window_1000) []) = []) by reflexivity.
  split; [exact T|].
  pose proof (open_close_cycle window_1000 [] (SourceString "a.jpg")
                (Some thumbnail) T) as C.
  change (run (run (mount window_1000) []))
    with (run (mount window_1000)) in C.
  unfold open_a. rewrite C. reflexivity.
Defined.

(** ** Closing a view that is not open *)

Lemma close_phase_visible (s : ViewerState) (now : nat) (w : World) :
  close_phase s now w -> visible s = false -> visible (state w) = false.
Proof.
  intros [[T S]|[[T S]|[T [S C]]]] V; rewrite S; simpl; try exact V.
  reflexivity.
Qed.

(** X8. A click on the image of a view that is hidden, with nothing in
    progress and nothing pending, is not dropped: it raises [closing] and
    [updating].  While time passes and its timers run the view stays hidden
    (background and container have display 'none'), and once [duration] has
    elapsed and the two timers have run the page is in the state it had
    before the click. *)
Theorem close_when_closed :
  forall (w : World) (es : list Event) (dom : Dom)
         (img : option HTMLImageElement),
    visible (state w) = false ->
    opening (state w) = false ->
    closing (state w) = false ->
    updating (state w) = false ->
    timers w = [] ->
    forallb passive es = true ->
    let w1 := step w ImageClick in
    let w' := run w1 es in
    closing (state w1) = true /\
    updating (state w1) = true /\
    visible (state w') = false /\
    BgStyle.display (bgStyle (state w')) = DisplayNone /\
    Style.display (style (state w') dom img) = DisplayNone /\
    run w1 [Elapse duration; TimerFires; TimerFires]
    = mkWorld (state w) (window w) (controller w) (clock w + duration) [].
Proof.
  intros w es dom img V O C U T P w1 w'.
  assert (A : animating (state w) = false)
    by (unfold animating; rewrite O, C; reflexivity).
  assert (W1 : w1 = mkWorld
                      (apply_set (setClosing true)
                         (apply_set (setUpdating true) (state w)))
                      (window w) (controller w) (clock w)
                      [pulse_timer (clock w); finish_timer (clock w)]).
  { unfold w1, step. rewrite (run_effects_closeView _ _ _ A), T.
    reflexivity. }
  assert (Ph : close_phase (state w) (clock w) w1).
  { left. rewrite W1. split; reflexivity. }
  assert (Vw : visible (state w') = false).
  { apply (close_phase_visible (state w) (clock w)); [|exact V].
    apply close_phase_run; auto. }
  split; [rewrite W1; reflexivity|]. split; [rewrite W1; reflexivity|].
  split; [exact Vw|].
  split; [unfold bgStyle; simpl; rewrite Vw; reflexivity|].
  split; [unfold style; simpl; rewrite Vw; reflexivity|].
  rewrite W1. unfold pulse_timer, finish_timer. rewrite run_two_timers.
  f_equal. destruct (state w). simpl in *. subst. reflexivity.
Qed.

(** A click on the image of the freshly mounted example page. *)
Lemma close_when_closed_witness :
  let w := mount window_1000 in
  visible (state w) = false /\
  timers w = [] /\
  closing (state (step w ImageClick)) = true /\
  visible (state (run (step w ImageClick) [TimerFires; Elapse 100])) = false /\
  state (run (step w ImageClick) [Elapse duration; TimerFires; TimerFires])
  = state w.
Proof.
  intro w.
  assert (V : visible (state w) = false) by reflexivity.
  assert (O : opening (state w) = false) by reflexivity.
  assert (C : closing (state w) = false) by reflexivity.
  assert (U : updating (state w) = false) by reflexivity.
  assert (T : timers w = []) by reflexivity.
  assert (P : forallb passive [TimerFires; Elapse 100] = true) by reflexivity.
  destruct (close_when_closed w [TimerFires; Elapse 100] (dom_natural 0 0)
              None V O C U T P) as (Hc & _ & Hv & _ & _ & F).
  split; [exact V|]. split; [exact T|]. split; [exact Hc|].
  split; [exact Hv|]. rewrite F. reflexivity.
Defined.

(** ** The size of the window *)

Lemma handlers_keep_body (s' : ViewerState) (w : World) :
  (forall r t,
      bodyWidth (state (run_effects (openView s' r t) w)) = bodyWidth (state w) /\
      bodyHeight (state (run_effects (openView s' r t) w)) = bodyHeight (state w) /\
      window (run_effects (openView s' r t) w) = window w) /\
  (forall a,
      bodyWidth (state (run_effects (closeView s' a) w)) = bodyWidth (state w) /\
      bodyHeight (state (run_effects (closeView s' a) w)) = bodyHeight (state w) /\
      window (run_effects (closeView s' a) w) = window w).
Proof.
  split; intros; unfold openView, closeView; destruct (animating s');
    repeat split.
Qed.

Lemma timer_keeps_body (w : World) :
  pending_ok w ->
  bodyWidth (state (step w TimerFires)) = bodyWidth (state w) /\
  bodyHeight (state (step w TimerFires)) = bodyHeight (state w) /\
  window (step w TimerFires) = window w.
Proof.
  intros (F & _). simpl.
  destruct (next_timer (timers w)) as [[t rest]|] eqn:N; [|repeat split].
  destruct (due t <=? clock w); [|repeat split].
  destruct (next_timer_Forall _ _ F t rest N) as [[Ht _] _].
  destruct Ht as [E|[E|E]]; rewrite E; repeat split.
Qed.

Lemma tracks_keep (window0 : Window) (acc : option Window) (w w' : World) :
  bodyWidth (state w') = bodyWidth (state w) /\
  bodyHeight (state w') = bodyHeight (state w) /\
  window w' = window w ->
  tracks window0 acc w -> tracks window0 acc w'.
Proof.
  intros (Ew & Eh & Ewin). unfold tracks. rewrite Ew, Eh, Ewin. exact id.
Qed.

Lemma tracks_step (window0 : Window) (acc : option Window) (w : World)
  (e : Event) :
  controller w = controller (mount window0) ->
  pending_ok w ->
  tracks window0 acc w ->
  tracks window0 (match e with Resize win => Some win | _ => acc end)
    (step w e).
Proof.
  intros K P R. destruct e.
  - apply (tracks_keep window0 acc w); [|exact R]. unfold step.
    unfold AnimatedPhotoViewController.openView.
    destruct (AnimatedPhotoViewController.openView_arguments _ _ _) as [r t].
    rewrite K. apply (handlers_keep_body (initial_state window0) w).
  - apply (tracks_keep window0 acc w); [|exact R]. unfold step.
    unfold AnimatedPhotoViewController.openViewFromElement,
      AnimatedPhotoViewController.openView.
    destruct (AnimatedPhotoViewController.openView_arguments _ _ _) as [r t].
    rewrite K. apply (handlers_keep_body (initial_state window0) w).
  - apply (tracks_keep window0 acc w); [|exact R]. unfold step.
    rewrite K. apply (handlers_keep_body (initial_state window0) w).
  - apply (tracks_keep window0 acc w); [|exact R]. unfold step.
    apply (handlers_keep_body (state w) w).
  - repeat split.
  - exact R.
  - apply (tracks_keep window0 acc w); [|exact R].
    apply timer_keeps_body. exact P.
Qed.

Lemma jsor_default_nonzero (a d : number) : d <> 0 -> jsor a d <> 0.
Proof.
  intro Hd. unfold jsor. destruct (truthy a) eqn:E; [|exact Hd].
  intro H. apply truthy_false_iff in H. rewrite H in E. discriminate E.
Qed.

(** X9. The size the component lays the image out in follows the window:
    after any events on a mounted page it is the size given by the last
    resize, zero included; before any resize it is the size of the window at
    mounting with 1000 in place of a zero dimension, so neither dimension is
    zero.  No call of a handler and no timer changes it. *)
Theorem body_size_tracks_window :
  forall (window0 : Window) (es : list Event),
    let w := run (mount window0) es in
    match last_resize es with
    | Some win =>
        window w = win /\
        bodyWidth (state w) = innerWidth win /\
        bodyHeight (state w) = innerHeight win
    | None =>
        window w = window0 /\
        bodyWidth (state w) = jsor (innerWidth window0) (lit 1000) /\
        bodyHeight (state w) = jsor (innerHeight window0) (lit 1000) /\
        bodyWidth (state w) <> 0 /\
        bodyHeight (state w) <> 0
    end.
Proof.
  intros window0 es w.
  assert (G : forall es w acc,
             controller w = controller (mount window0) ->
             pending_ok w ->
             tracks window0 acc w ->
             tracks window0
               (fold_left
                  (fun acc e =>
                     match e with Resize win => Some win | _ => acc end)
                  es acc)
               (run w es)).
  { clear. induction es as [|e es IH]; intros w acc K P R; [exact R|].
    unfold run in *. cbn [fold_left]. apply IH.
    - rewrite controller_step. exact K.
    - apply (pending_ok_step window0); assumption.
    - apply tracks_step; assumption. }
  specialize (G es (mount window0) None eq_refl (pending_ok_mount window0)).
  fold (last_resize es) in G. fold w in G.
  assert (R0 : tracks window0 None (mount window0)) by (repeat split).
  specialize (G R0). unfold tracks in G.
  destruct (last_resize es) as [win|]; [exact G|].
  destruct G as (Gw & Gbw & Gbh).
  split; [exact Gw|]. split; [exact Gbw|]. split; [exact Gbh|].
  rewrite Gbw, Gbh. split; apply jsor_default_nonzero; discriminate.
Qed.

(** ** What an open animates from *)

(** X10. On a mounted page, whatever happened before: an open with a
    target stores that target; an open of an image element without a target
    stores the image itself, whose rectangle is read from the element's own
    [x], [y], [width] and [height] whenever it is used; [openViewFromElement]
    with an element stores a live rectangle on that element, and without one
    does what [openView] does without a target.  The source stored is the
    one given, and its [url] is the string, or the current [src] of the
    image. *)
Theorem open_target_resolution :
  forall (window0 : Window) (es : list Event) (source0 : ImageSource),
    let w := run (mount window0) es in
    (forall (t : AnimationTargetRef),
        animationTarget (state (step w (ControllerOpenView source0 (Some t))))
        = Some t) /\
    (forall (img : HTMLImageElement) (d : Dom),
        animationTarget
          (state (step w (ControllerOpenView (SourceImage img) None)))
        = Some (ImageTarget img) /\
        x d (ImageTarget img) = img_x (d img) /\
        y d (ImageTarget img) = img_y (d img) /\
        width d (ImageTarget img) = img_width (d img) /\
        height d (ImageTarget img) = img_height (d img)) /\
    (forall e : HTMLElement,
        animationTarget
          (state (step w (ControllerOpenViewFromElement source0 (Some e))))
        = Some (ElementTarget (HTMLElementAnimationTarget.new e))) /\
    step w (ControllerOpenViewFromElement source0 None)
    = step w (ControllerOpenView source0 None) /\
    (forall (t : option AnimationTargetRef),
        source (state (step w (ControllerOpenView source0 t)))
        = Some (ImageSourceResolver.new source0)) /\
    (forall (d : Dom),
        ImageSourceResolver.url d (ImageSourceResolver.new source0)
        = match source0 with
          | SourceString s => s
          | SourceImage img => src (d img)
          end).
Proof.
  intros window0 es source0 w.
  assert (S : forall s t,
             step w (ControllerOpenView s t)
             = mkWorld
                 (opening_started (state w)
                    (fst (AnimatedPhotoViewController.openView_arguments
                            (window w) s t))
                    (snd (AnimatedPhotoViewController.openView_arguments
                            (window w) s t)))
                 (window w) (controller w) (clock w)
                 (timers w ++ [pulse_timer (clock w); opening_timer (clock w)]))
    by (intros s t; apply step_ControllerOpenView).
  split; [|split; [|split; [|split; [|split]]]].
  - intro t. rewrite S. reflexivity.
  - intros img d. rewrite S. repeat split.
  - intro e.
    change (step w (ControllerOpenViewFromElement source0 (Some e)))
      with (step w (ControllerOpenView source0
                      (Some (ElementTarget (HTMLElementAnimationTarget.new e))))).
    rewrite S. reflexivity.
  - reflexivity.
  - intro t. rewrite S. destruct t; reflexivity.
  - intro d. destruct source0; reflexivity.
Qed.

(** A close through the controller of the example page, once the view is
    open. *)
Lemma ControllerCloseView_steady_witness :
  let es := [open_a; TimerFires; Elapse 2000; TimerFires] in
  animating (state (run (mount window_1000) es)) = false /\
  step (run (mount window_1000) es) (ControllerCloseView (Some other_thumbnail))
  = step (run (mount window_1000) es) ImageClick.
Proof.
  intro es.
  assert (A : animating (state (run (mount window_1000) es)) = false)
    by reflexivity.
  split; [exact A|].
  exact (ControllerCloseView_steady window_1000 es (Some other_thumbnail) A).
Defined.

(** ** The background along an opening and a closing *)

Lemma open_phase_settled_step (s : ViewerState) (r : ImageSourceResolver.t)
  (t : AnimationTargetRef) (now : nat) (w : World) (e : Event) :
  passive e = true ->
  open_phase s r t now w /\ updating (state w) = false ->
  open_phase s r t now (step w e) /\ updating (state (step w e)) = false.
Proof.
  intros P [Ph U]. split; [apply open_phase_step; assumption|].
  destruct e; try discriminate P; [exact U|].
  destruct Ph as [[T S]|[[T S]|[T [S C]]]].
  - rewrite S in U. discriminate U.
  - unfold step. rewrite T. cbn [next_timer].
    destruct (due (opening_timer now) <=? clock w); [|exact U].
    cbn [state]. rewrite S. reflexivity.
  - unfold step. rewrite T. exact U.
Qed.

Lemma open_phase_settled_run (s : ViewerState) (r : ImageSourceResolver.t)
  (t : AnimationTargetRef) (now : nat) (es : list Event) :
  forallb passive es = true ->
  forall w,
    open_phase s r t now w /\ updating (state w) = false ->
    open_phase s r t now (run w es) /\ updating (state (run w es)) = false.
Proof.
  induction es as [|e es IH]; intros P w H; [exact H|].
  simpl in P. apply andb_true_iff in P. destruct P as [Pe Pes].
  unfold run in *. simpl. apply (IH Pes).
  apply open_phase_settled_step; assumption.
Qed.

(** X13. Along an opening started through the controller of a mounted page
    with no timer pending, the opacity of the background is 0 right after
    the call and 1 from the moment the pulse's timer has run, however much
    time passes afterwards; the fade-in is the transition between the two. *)
Theorem background_during_open :
  forall (window0 : Window) (es0 : list Event) (source0 : ImageSource)
         (target0 : option AnimationTargetRef) (es : list Event),
    let w := run (mount window0) es0 in
    timers w = [] ->
    forallb passive es = true ->
    let w1 := step w (ControllerOpenView source0 target0) in
    BgStyle.opacity (bgStyle (state w1)) = 0 /\
    BgStyle.display (bgStyle (state w1)) = DisplayBlock /\
    BgStyle.opacity (bgStyle (state (run w1 (TimerFires :: es)))) = 1 /\
    BgStyle.display (bgStyle (state (run w1 (TimerFires :: es))))
    = DisplayBlock.
Proof.
  intros window0 es0 source0 target0 es w T P w1.
  destruct (quiet_flags w (pending_ok_run window0 es0) T) as (Fo & Fc & Fu).
  set (rt := AnimatedPhotoViewController.openView_arguments (window w)
               source0 target0).
  assert (W1 : w1 = mkWorld (opening_started (state w) (fst rt) (snd rt))
                      (window w) (controller w) (clock w)
                      [pulse_timer (clock w); opening_timer (clock w)]).
  { unfold w1. unfold w at 1.
    rewrite (step_ControllerOpenView window0 es0 source0 target0).
    fold w. fold rt. rewrite T. reflexivity. }
  assert (W2 : step w1 TimerFires
               = mkWorld
                   (apply_set (setUpdating false)
                      (opening_started (state w) (fst rt) (snd rt)))
                   (window w) (controller w) (clock w)
                   [opening_timer (clock w)]).
  { rewrite W1.
    apply (step_TimerFires _ _ _ _ _ (pulse_timer (clock w))
             [opening_timer (clock w)]).
    - cbn [next_timer].
      replace (due (opening_timer (clock w)) <? due (pulse_timer (clock w)))
        with false; [reflexivity|].
      symmetry. apply Nat.ltb_ge. unfold opening_timer, pulse_timer.
      cbn [due]. lia.
    - apply Nat.leb_le. unfold pulse_timer. cbn [due]. lia. }
  assert (Ph : open_phase (state w) (fst rt) (snd rt) (clock w)
                 (step w1 TimerFires)
               /\ updating (state (step w1 TimerFires)) = false).
  { rewrite W2. split; [right; left; split; reflexivity | reflexivity]. }
  destruct (open_phase_settled_run _ _ _ _ es P _ Ph) as [Ph' U'].
  pose proof (open_phase_frame _ _ _ _ _ Ph') as (Hv & _ & _ & Hc & _).
  change (run w1 (TimerFires :: es)) with (run (step w1 TimerFires) es).
  clearbody rt. clearbody w1. clearbody w.
  split; [rewrite W1; reflexivity|]. split; [rewrite W1; reflexivity|].
  unfold bgStyle. cbn [BgStyle.opacity BgStyle.display].
  rewrite Hv, U', Hc, Fc. split; reflexivity.
Qed.

(** The opening of "a.jpg" on the example page, a second after the pulse. *)
Lemma background_during_open_witness :
  timers (run (mount window_1000) []) = [] /\
  BgStyle.opacity (bgStyle (state (step (mount window_1000) open_a))) = 0 /\
  BgStyle.opacity
    (bgStyle (state (run (step (mount window_1000) open_a)
                       [TimerFires; Elapse 1000]))) = 1.
Proof.
  assert (T : timers (run (mount window_1000) []) = []) by reflexivity.
  assert (P : forallb passive [Elapse 1000] = true) by reflexivity.
  destruct (background_during_open window_1000 [] (SourceString "a.jpg")
              (Some thumbnail) [Elapse 1000] T P) as (O0 & _ & O1 & _).
  split; [exact T|]. split; [exact O0 | exact O1].
Defined.

(** X14. Along a closing started by a click on the image of a view that is
    open with nothing in progress and nothing pending, the opacity of the
    background is 1 before the click and 0 from the click on, however much
    time passes and whichever of its timers have run. *)
Theorem background_during_close :
  forall (w : World) (es : list Event),
    visible (state w) = true ->
    opening (state w) = false ->
    closing (state w) = false ->
    updating (state w) = false ->
    timers w = [] ->
    forallb passive es = true ->
    BgStyle.opacity (bgStyle (state w)) = 1 /\
    BgStyle.opacity (bgStyle (state (run (step w ImageClick) es))) = 0.
Proof.
  intros w es V O C U T P.
  assert (A : animating (state w) = false)
    by (unfold animating; rewrite O, C; reflexivity).
  split; [unfold bgStyle; simpl; rewrite V, U, C; reflexivity|].
  assert (Ph : close_phase (state w) (clock w) (step w ImageClick)).
  { left. unfold step. rewrite (run_effects_closeView _ _ _ A), T.
    split; reflexivity. }
  pose proof (close_phase_run (state w) (clock w) (conj O (conj C U)) es P
                _ Ph) as [[_ S]|[[_ S]|[_ [S _]]]];
    unfold bgStyle; rewrite S; simpl.
  - rewrite orb_true_r. reflexivity.
  - rewrite orb_true_r. reflexivity.
  - reflexivity.
Qed.

(** The open view of the example page, clicked. *)
Lemma background_during_close_witness :
  visible (state fully_open) = true /\
  timers fully_open = [] /\
  BgStyle.opacity (bgStyle (state fully_open)) = 1 /\
  BgStyle.opacity
    (bgStyle (state (run (step fully_open ImageClick)
                       [TimerFires; Elapse 100]))) = 0.
Proof.
  assert (V : visible (state fully_open) = true) by reflexivity.
  assert (O : opening (state fully_open) = false) by reflexivity.
  assert (C : closing (state fully_open) = false) by reflexivity.
  assert (U : updating (state fully_open) = false) by reflexivity.
  assert (T : timers fully_open = []) by reflexivity.
  assert (P : forallb passive [TimerFires; Elapse 100] = true) by reflexivity.
  destruct (background_during_close fully_open [TimerFires; Elapse 100]
              V O C U T P) as [B A].
  split; [exact V|]. split; [exact T|]. split; [exact B | exact A].
Defined.

(** ** Source and target *)

Lemma furnished_open (s' : ViewerState) (w : World)
  (r : ImageSourceResolver.t) (t : AnimationTargetRef) :
  furnished (state w) -> furnished (state (run_effects (openView s' r t) w)).
Proof.
  intro F. unfold openView. destruct (animating s'); [exact F|].
  unfold run_effects, furnished. simpl.
  split; [intros _; split; discriminate|]. split; discriminate.
Qed.

Lemma furnished_close (s' : ViewerState) (w : World)
  (a : option AnimationTargetRef) :
  furnished (state w) -> furnished (state (run_effects (closeView s' a) w)).
Proof.
  intro F. unfold closeView. destruct (animating s'); exact F.
Qed.

Lemma furnished_step (window0 : Window) (w : World) (e : Event) :
  controller w = controller (mount window0) ->
  pending_ok w ->
  furnished (state w) -> furnished (state (step w e)).
Proof.
  intros K P F. destruct e; unfold step.
  - unfold AnimatedPhotoViewController.openView.
    destruct (AnimatedPhotoViewController.openView_arguments _ _ _) as [r t].
    rewrite K. apply furnished_open. exact F.
  - unfold AnimatedPhotoViewController.openViewFromElement,
      AnimatedPhotoViewController.openView.
    destruct (AnimatedPhotoViewController.openView_arguments _ _ _) as [r t].
    rewrite K. apply furnished_open. exact F.
  - rewrite K. apply furnished_close. exact F.
  - apply furnished_close. exact F.
  - exact F.
  - exact F.
  - destruct P as (Ft & _).
    destruct (next_timer (timers w)) as [[t rest]|] eqn:N; [|exact F].
    destruct (due t <=? clock w); [|exact F].
    destruct (next_timer_Forall _ _ Ft t rest N) as [[Ht _] _].
    destruct F as [Fv Fst]. cbn [state].
    destruct Ht as [E|[E|E]]; rewrite E; split; simpl;
      try exact Fv; try exact Fst.
    intro H. discriminate H.
Qed.

(** X15. On a mounted page, whatever happened: the component holds a
    source exactly when it holds an animation target, and it holds both
    whenever the view is visible; so the rectangle the container is pinned
    to while [updating] or [closing] is the target's whenever the container
    is displayed. *)
Theorem visible_has_target :
  forall (window0 : Window) (es : list Event) (dom : Dom),
    let s := state (run (mount window0) es) in
    (source s = None <-> animationTarget s = None) /\
    (visible s = true ->
     exists (r : ImageSourceResolver.t) (t : AnimationTargetRef),
       source s = Some r /\ animationTarget s = Some t /\
       target_or_0 s dom x = x dom t /\
       target_or_0 s dom y = y dom t /\
       target_or_0 s dom width = width dom t /\
       target_or_0 s dom height = height dom t).
Proof.
  intros window0 es dom s.
  assert (G : forall es w,
             controller w = controller (mount window0) ->
             pending_ok w -> furnished (state w) ->
             furnished (state (run w es))).
  { clear. induction es as [|e es IH]; intros w K P F; [exact F|].
    unfold run in *. cbn [fold_left]. apply IH.
    - rewrite controller_step. exact K.
    - apply (pending_ok_step window0); assumption.
    - apply (furnished_step window0); assumption. }
  assert (F0 : furnished (state (mount window0))).
  { split; [intro H; discriminate H | split; reflexivity]. }
  destruct (G es (mount window0) eq_refl (pending_ok_mount window0) F0)
    as [Fv Fst].
  fold s in Fv, Fst. split; [exact Fst|]. intro V.
  destruct (Fv V) as [Hs Ht].
  destruct (source s) as [r|] eqn:Es; [|contradiction].
  destruct (animationTarget s) as [t|] eqn:Et; [|contradiction].
  exists r, t. split; [reflexivity|]. split; [reflexivity|].
  unfold target_or_0. rewrite Et. rewrite !jsor_0_r. repeat split.
Qed.

(** ** The padding in a viewport of width zero *)

(** C6, where it fails.  The resize listener stores the width of the window
    as it is, zero included (the first render replaces a zero by 1000, the
    listener does not).  With [bodyWidth = 0] the padding of lines 260-261
    is NaN, for a viewport 500 high as for one of height 0: NaN is not below
    0, so the clamp leaves it, and it is not at least 0 either.  The clamp
    does what it is there for: whatever the viewport and the image, the
    padding is never below 0; and with a positive width the value is the
    expected one, 250 for a 1000 x 1000 image in a 1000 x 500 viewport. *)
Theorem padding_zero_width :
  bodyWidth (state (step (mount window_1000) (Resize (mkWindow 0 (lit 500)))))
  = 0 /\
  bodyHeight (state (step (mount window_1000) (Resize (mkWindow 0 (lit 500)))))
  = lit 500 /\
  PrimFloat.is_nan (Double.left 0 500 (Some (1000, 1000)%float)) = true /\
  PrimFloat.leb 0 (Double.left 0 500 (Some (1000, 1000)%float)) = false /\
  PrimFloat.is_nan (Double.left 0 0 (Some (1000, 1000)%float)) = true /\
  PrimFloat.is_nan (Double.left 0 500 None) = true /\
  (forall (W H : float) (natural : option (float * float)),
      PrimFloat.ltb (Double.left W H natural) 0 = false) /\
  Double.left 1000 500 (Some (1000, 1000)%float) = 250%float.
Proof.
  split; [reflexivity|]. split; [reflexivity|].
  split; [vm_compute; reflexivity|]. split; [vm_compute; reflexivity|].
  split; [vm_compute; reflexivity|]. split; [vm_compute; reflexivity|].
  split; [|vm_compute; reflexivity].
  intros W H natural. unfold Double.left. cbv zeta.
  match goal with
  | |- PrimFloat.ltb (if PrimFloat.ltb ?l 0 then _ else _) 0 = false =>
      destruct (PrimFloat.ltb l 0) eqn:E; [vm_compute; reflexivity | exact E]
  end.
Qed.
